(** * sclicer.py: slicing an LPC sprite sheet and packing a texture atlas

    A shallow embedding of [src/philoagents-ui/sclicer.py] and the
    properties of its three parts: [slice_frames], [paste_frames_to_atlas]
    and the body of [main] that collects frames and names and builds the
    JSON manifest.

    Conventions of the embedding.
    - Python [int] is [Z]; [//] and [%] are the floor division and modulo
      of [Z] ([Z.div], [Z.modulo]), which agree with Python's on every sign
      combination.  A zero divisor raises [ZeroDivisionError].
    - [math.ceil(a / b)] goes through a float, as in the code: [a / b] is
      the binary64 number nearest to the quotient (ties to even, with
      subnormals, [OverflowError] past the largest float), and [math.ceil]
      is taken of that number.  [py_ceil_truediv_exact] shows that the
      result is the ceiling of the quotient when both operands are below
      [2^53]; for larger operands it need not be.
    - [enumerate] indices and [len] are [nat], injected in [Z] where the
      code computes with them.
    - The imaging library (PIL) is not part of the repository.  It is an
      interface, [ImageLib]: [Image.new] and [crop] may raise, and
      [ImageLaws] states what the development assumes about them: a
      negative size and a box with [right < left] or [lower < upper] raise
      [ValueError]; an image has a size between 0 and the largest C [int];
      what a call returns, when it returns, has the size and the pixels
      asked for.  Nothing is assumed about when a call with valid arguments
      returns (memory, the library's own limits).  [grid_lib] is a model of
      the interface on pixel grids.
    - [atlas.paste] mutates the atlas in place; the embedding threads the
      atlas through the loop.
    - File input and output of [main] are its argument [sheet] and its
      returned pair of the atlas and the JSON document. *)

From Stdlib Require Import ZArith Lia Ascii DecimalString DecimalNat.
From stdpp Require Import base tactics option list numbers strings.

Local Open Scope Z_scope.

(** * Part I: the program *)

(** ** Python exceptions and the error monad *)

(** The exceptions the code and the imaging library raise; [OtherError] is
    any other exception of the library, by the name of its class. *)
Inductive PyExc : Type :=
  | ZeroDivisionError
  | IndexError
  | ValueError
  | OverflowError
  | MemoryError
  | OtherError (name : string).

Inductive result (A : Type) : Type :=
  | Ok (a : A)
  | Raise (e : PyExc).
Arguments Ok {A} a.
Arguments Raise {A} e.

#[export] Instance result_ret : MRet result := fun A a => Ok a.
#[export] Instance result_bind : MBind result := fun A B f m =>
  match m with
  | Ok a => f a
  | Raise e => Raise e
  end.

(** ** Python floats: the quotient of two [int]s *)

(** [2 ** k] for [k >= 0], and [1] below. *)
Definition pow2 (k : Z) : Z := 2 ^ Z.max k 0.

(** The floor of the binary logarithm of [a / b], for positive [a] and [b]. *)
Definition quotient_log2 (a b : Z) : Z :=
  let d := Z.log2 a - Z.log2 b in
  if decide (b * pow2 d ≤ a * pow2 (- d)) then d else d - 1.

(** The exponent of the last bit of the float nearest to [a / b]: 53 bits
    of precision, and [2 ** -1074] the smallest subnormal. *)
Definition float_exponent (a b : Z) : Z :=
  Z.max (quotient_log2 a b - 52) (-1074).

(** The integer nearest to [num / den], ties to even. *)
Definition round_half_even (num den : Z) : Z :=
  let q := num `div` den in
  let r := num `mod` den in
  if decide (2 * r < den) then q
  else if decide (den < 2 * r) then q + 1
  else if Z.even q then q else q + 1.

(** The float nearest to [a / b], for positive [a] and [b], is
    [float_mantissa a b * 2 ** float_exponent a b]. *)
Definition float_mantissa (a b : Z) : Z :=
  let e := float_exponent a b in
  round_half_even (a * pow2 (- e)) (b * pow2 e).

(** ** Python integer arithmetic *)

(** [math.ceil(a / b)] *)
Definition py_ceil_truediv (a b : Z) : result Z :=
  if decide (b = 0) then Raise ZeroDivisionError
  else if decide (a = 0) then Ok 0
  else
    let m := float_mantissa (Z.abs a) (Z.abs b) in
    let e := float_exponent (Z.abs a) (Z.abs b) in
    if decide (pow2 1024 * pow2 (- e) ≤ m * pow2 e) then Raise OverflowError
    else if decide (0 < a * b)
      then Ok (- ((- (m * pow2 e)) `div` pow2 (- e)))
      else Ok (- ((m * pow2 e) `div` pow2 (- e))).

(** [a % b] *)
Definition py_mod (a b : Z) : result Z :=
  if decide (b = 0) then Raise ZeroDivisionError
  else Ok (a `mod` b).

(** [a // b] *)
Definition py_floordiv (a b : Z) : result Z :=
  if decide (b = 0) then Raise ZeroDivisionError
  else Ok (a `div` b).

(** [range(n)] *)
Definition py_range (n : Z) : list Z := seqZ 0 n.

(** [l[-1]] *)
Definition py_last {A} (l : list A) : result A :=
  match last l with
  | Some v => Ok v
  | None => Raise IndexError
  end.

(** A [for] loop whose body may raise. *)
Fixpoint for_each {S A} (body : S → A → result S) (st : S) (l : list A)
    : result S :=
  match l with
  | [] => Ok st
  | v :: l' => st' ← body st v; for_each body st' l'
  end.

(** ** The imaging library *)

(** An RGBA pixel. *)
Definition Pixel : Type := Z * Z * Z * Z.

(** A crop box [(left, upper, right, lower)]. *)
Definition Box : Type := Z * Z * Z * Z.

(** A destination rectangle [(x, y, w, h)], as appended to [rects]. *)
Definition Rect : Type := Z * Z * Z * Z.

Class ImageLib : Type := {
  Image : Type;
  (** [im.size] *)
  image_size : Image → Z * Z;
  (** [im.getpixel((a, b))], [None] outside the image *)
  image_getpixel : Image → Z → Z → option Pixel;
  (** [Image.new("RGBA", size, color)] *)
  image_new : Z * Z → Pixel → result Image;
  (** [im.crop(box)] *)
  image_crop : Image → Box → result Image;
  (** [dst.paste(src, (x, y))], as the new value of [dst] *)
  image_paste : Image → Image → Z * Z → Image;
}.

(** ** String formatting *)

Fixpoint zeros (k : nat) : string :=
  match k with
  | O => EmptyString
  | S k' => String "0"%char (zeros k')
  end.

(** [f"{i:04d}"] for an index [i] of [enumerate]: the decimal digits of [i],
    padded with zeros on the left to four characters. *)
Definition fmt_04d (i : nat) : string :=
  let digits := NilEmpty.string_of_uint (Nat.to_uint i) in
  zeros (4 - String.length digits) +:+ digits.

(** ** Python dictionaries *)

(** A [dict] keeps its keys in insertion order; assigning to a key that is
    present replaces the value and leaves the key where it is. *)
Definition PyDict (V : Type) : Type := list (string * V).

Fixpoint dict_setitem {V} (d : PyDict V) (k : string) (v : V) : PyDict V :=
  match d with
  | [] => [(k, v)]
  | (k', v') :: d' =>
      if decide (k' = k) then (k, v) :: d' else (k', v') :: dict_setitem d' k v
  end.

Fixpoint dict_get {V} (d : PyDict V) (k : string) : option V :=
  match d with
  | [] => None
  | (k', v') :: d' => if decide (k' = k) then Some v' else dict_get d' k
  end.

Definition dict_keys {V} (d : PyDict V) : list string := d.*1.

(** ** The JSON manifest *)

Module json.

(** [{"x": x, "y": y, "w": w, "h": h}] *)
Record xywh : Type := { x : Z; y : Z; w : Z; h : Z }.

(** [{"w": w, "h": h}] *)
Record wh : Type := { size_w : Z; size_h : Z }.

(** The value stored under a frame name. *)
Record entry : Type := {
  frame : xywh;
  rotated : bool;
  trimmed : bool;
  spriteSourceSize : xywh;
  sourceSize : wh;
}.

(** [{"frames": frames_json, "meta": {"image": "atlas.png"}}] *)
Record document : Type := {
  frames : PyDict entry;
  meta_image : string;
}.

End json.

(** The value assigned in the body of
    [for name, (x, y, w, h) in zip(name_order, rects)]. *)
Definition json_entry (r : Rect) : json.entry :=
  let '(x, y, w, h) := r in
  {| json.frame := {| json.x := x; json.y := y; json.w := w; json.h := h |};
     json.rotated := false;
     json.trimmed := false;
     json.spriteSourceSize := {| json.x := 0; json.y := 0; json.w := w; json.h := h |};
     json.sourceSize := {| json.size_w := w; json.size_h := h |} |}.

(** Lines 86-94: [frames_json]. *)
Definition build_json (name_order : list string) (rects : list Rect)
    : PyDict json.entry :=
  foldl (fun frames_json '(name, r) => dict_setitem frames_json name (json_entry r))
        [] (zip name_order rects).

(** ** Command-line arguments *)

Module args.

(** The namespace returned by [parse_args]. *)
Record t : Type := {
  image : string;
  id : string;
  frame_width : Z;
  frame_height : Z;
  cols : Z;
  start_col : Z;
  walk_frames : Z;
  front_row : Z;
  left_row : Z;
  right_row : Z;
  back_row : Z;
  static_col : Z;
  atlas_cols : Z;
  out : string;
}.

End args.

Section Program.
Context {L : ImageLib}.

(** ** [slice_frames] *)

Definition slice_frames (sheet : Image) (frame_w frame_h row start_col count : Z)
    : result (list Image) :=
  for_each (fun frames i =>
              let x := (start_col + i) * frame_w in
              let y := row * frame_h in
              let box := (x, y, x + frame_w, y + frame_h) in
              f ← image_crop sheet box;
              mret (frames ++ [f]))
           [] (py_range count).

(** ** [paste_frames_to_atlas] *)

(** The loop [for idx, frame in enumerate(frames)], from index [idx] on. *)
Fixpoint paste_loop (frame_w frame_h cols : Z) (idx : nat) (frames : list Image)
    (atlas : Image) (rects : list Rect) : result (Image * list Rect) :=
  match frames with
  | [] => Ok (atlas, rects)
  | frame :: rest =>
      cx ← py_mod (Z.of_nat idx) cols;
      cy ← py_floordiv (Z.of_nat idx) cols;
      let x := cx * frame_w in
      let y := cy * frame_h in
      paste_loop frame_w frame_h cols (S idx) rest
        (image_paste atlas frame (x, y))
        (rects ++ [(x, y, frame_w, frame_h)])
  end.

Definition paste_frames_to_atlas (frames : list Image) (frame_w frame_h cols : Z)
    : result (Image * list Rect) :=
  rows ← py_ceil_truediv (Z.of_nat (length frames)) cols;
  let atlas_w := cols * frame_w in
  let atlas_h := rows * frame_h in
  atlas ← image_new (atlas_w, atlas_h) (0, 0, 0, 0);
  paste_loop frame_w frame_h cols 0 frames atlas [].

(** ** [main] *)

(** The list both loops of [main] iterate over. *)
Definition directions (a : args.t) : list (string * Z) :=
  [("front", args.front_row a); ("back", args.back_row a);
   ("left", args.left_row a); ("right", args.right_row a)]%string.

(** [f"{args.id}-{dir_key}"] *)
Definition static_name (a : args.t) (dir_key : string) : string :=
  args.id a +:+ "-" +:+ dir_key.

(** [f"{args.id}-{dir_key}-walk-{i:04d}"] *)
Definition walk_name (a : args.t) (dir_key : string) (i : nat) : string :=
  args.id a +:+ "-" +:+ dir_key +:+ "-walk-" +:+ fmt_04d i.

(** The state of the two loops: [name_order] and [images]. *)
Definition Collected : Type := list string * list Image.

(** Body of the loop under [# Static poses]. *)
Definition static_step (a : args.t) (sheet : Image) (st : Collected)
    (d : string * Z) : result Collected :=
  let '(dir_key, row) := d in
  let x := args.static_col a * args.frame_width a in
  let y := row * args.frame_height a in
  static_img ←
    image_crop sheet (x, y, x + args.frame_width a, y + args.frame_height a);
  mret (st.1 ++ [static_name a dir_key], st.2 ++ [static_img]).

(** Lines 76-77: [if args.walk_frames == 9 and len(frames) == 8:
    frames.append(frames[-1])]. *)
Definition pad_walk (a : args.t) (frames : list Image) : result (list Image) :=
  if decide (args.walk_frames a = 9 ∧ Z.of_nat (length frames) = 8) then
    v ← py_last frames; mret (frames ++ [v])
  else mret frames.

(** Lines 78-80: [for i, img in enumerate(frames)], from index [i] on. *)
Fixpoint emit_walk (a : args.t) (dir_key : string) (i : nat)
    (frames : list Image) (st : Collected) : Collected :=
  match frames with
  | [] => st
  | img :: rest =>
      emit_walk a dir_key (S i) rest
        (st.1 ++ [walk_name a dir_key i], st.2 ++ [img])
  end.

(** Lines 76-80, with the extracted [frames] of one direction given. *)
Definition reconcile_and_emit (a : args.t) (dir_key : string)
    (frames : list Image) (st : Collected) : result Collected :=
  frames' ← pad_walk a frames;
  mret (emit_walk a dir_key 0 frames' st).

(** Body of the loop under [# Walk cycles]. *)
Definition walk_step (a : args.t) (sheet : Image) (st : Collected)
    (d : string * Z) : result Collected :=
  let '(dir_key, row) := d in
  frames ←
    slice_frames sheet (args.frame_width a) (args.frame_height a) row
      (args.start_col a) (args.walk_frames a);
  reconcile_and_emit a dir_key frames st.

(** Lines 59-80: [name_order] and [images] after the two loops. *)
Definition collect_frames (a : args.t) (sheet : Image) : result Collected :=
  st ← for_each (static_step a sheet) ([], []) (directions a);
  for_each (walk_step a sheet) st (directions a).

(** [main], from the decoded [sheet] to the atlas and the JSON document that
    are written to [atlas.png] and [atlas.json]. *)
Definition main (a : args.t) (sheet : Image) : result (Image * json.document) :=
  '(name_order, images) ← collect_frames a sheet;
  '(atlas, rects) ← paste_frames_to_atlas images (args.frame_width a)
                      (args.frame_height a) (args.atlas_cols a);
  let frames_json := build_json name_order rects in
  mret (atlas, {| json.frames := frames_json; json.meta_image := "atlas.png" |}).

End Program.

(** * Part II: the vocabulary of the properties *)

(** ** What is assumed of the imaging library *)

(** The largest C [int]: image extents are stored in one. *)
Definition c_int_max : Z := 2147483647.

Definition in_bounds (sz : Z * Z) (a b : Z) : Prop :=
  (0 ≤ a ∧ a < sz.1) ∧ (0 ≤ b ∧ b < sz.2).

#[export] Instance in_bounds_dec sz a b : Decision (in_bounds sz a b) :=
  and_dec (and_dec (decide (0 ≤ a)) (decide (a < sz.1)))
          (and_dec (decide (0 ≤ b)) (decide (b < sz.2))).

Class ImageLaws (L : ImageLib) : Prop := {
  size_range im :
    (0 ≤ (image_size im).1 ∧ (image_size im).1 ≤ c_int_max) ∧
    (0 ≤ (image_size im).2 ∧ (image_size im).2 ≤ c_int_max);
  new_negative sz c :
    sz.1 < 0 ∨ sz.2 < 0 → image_new sz c = Raise ValueError;
  size_new sz c im : image_new sz c = Ok im → image_size im = sz;
  crop_inverted im x0 y0 x1 y1 :
    x1 < x0 ∨ y1 < y0 → image_crop im (x0, y0, x1, y1) = Raise ValueError;
  size_crop im x0 y0 x1 y1 f :
    image_crop im (x0, y0, x1, y1) = Ok f →
    image_size f = (x1 - x0, y1 - y0);
  size_paste dst src p : image_size (image_paste dst src p) = image_size dst;
  getpixel_bounds im a b :
    is_Some (image_getpixel im a b) ↔ in_bounds (image_size im) a b;
  getpixel_crop im x0 y0 x1 y1 f u v :
    image_crop im (x0, y0, x1, y1) = Ok f →
    in_bounds (x1 - x0, y1 - y0) u v →
    in_bounds (image_size im) (x0 + u) (y0 + v) →
    image_getpixel f u v = image_getpixel im (x0 + u) (y0 + v);
  getpixel_paste dst src x y a b :
    image_getpixel (image_paste dst src (x, y)) a b =
      if decide (in_bounds (image_size dst) a b ∧
                 in_bounds (image_size src) (a - x) (b - y))
      then image_getpixel src (a - x) (b - y)
      else image_getpixel dst a b;
}.

(** What is assumed of a fresh image: every pixel has the fill colour. *)
Class ImageNewLaw (L : ImageLib) : Prop := {
  getpixel_new sz c im a b :
    image_new sz c = Ok im → in_bounds sz a b → image_getpixel im a b = Some c;
}.

(** ** Arithmetic *)

(** The ceiling of [n / c]. *)
Definition ceil_div (n c : Z) : Z := - ((- n) `div` c).

(** ** Rectangles and cells *)

(** The pixel [(a, b)] lies in the rectangle [r]. *)
Definition rect_contains (r : Rect) (a b : Z) : Prop :=
  let '(x, y, w, h) := r in x ≤ a < x + w ∧ y ≤ b < y + h.

(** Two rectangles are disjoint when no pixel lies in both. *)
Definition rects_disjoint (r1 r2 : Rect) : Prop :=
  ∀ a b, ¬ (rect_contains r1 a b ∧ rect_contains r2 a b).

(** The destination rectangle of the frame at index [idx]. *)
Definition cell_rect (frame_w frame_h cols : Z) (idx : nat) : Rect :=
  ((Z.of_nat idx `mod` cols) * frame_w, (Z.of_nat idx `div` cols) * frame_h,
   frame_w, frame_h).

(** The box cropped for the cell in row [row] and column [col] of the sheet. *)
Definition cell_box (frame_w frame_h row col : Z) : Box :=
  (col * frame_w, row * frame_h, col * frame_w + frame_w, row * frame_h + frame_h).

(** The boxes [slice_frames] crops, in the order it crops them. *)
Definition run_boxes (frame_w frame_h row start_col count : Z) : list Box :=
  (fun i => cell_box frame_w frame_h row (start_col + i)) <$> seqZ 0 count.

(** The calls [g x] for the [x] of a list, in order, up to the first one
    that raises. *)
Fixpoint result_map {A B} (g : A → result B) (l : list A) : result (list B) :=
  match l with
  | [] => Ok []
  | v :: l' => y ← g v; ys ← result_map g l'; mret (y :: ys)
  end.

(** ** Frame names *)

(** Reading a decimal numeral, leading zeros allowed. *)
Definition read_decimal (s : string) : option nat :=
  Nat.of_uint <$> NilEmpty.uint_of_string s.

(** The part of a walk frame name after [f"{args.id}-"]. *)
Definition walk_suffix (dir_key : string) (i : nat) : string :=
  dir_key +:+ "-walk-" +:+ fmt_04d i.

(** The parts after [f"{args.id}-"] of all names of a run with [n] walk
    frames per direction. *)
Definition name_suffixes (n : nat) : list string :=
  ["front"; "back"; "left"; "right"]%string
  ++ (walk_suffix "front" <$> seq 0 n) ++ (walk_suffix "back" <$> seq 0 n)
  ++ (walk_suffix "left" <$> seq 0 n) ++ (walk_suffix "right" <$> seq 0 n).

(** The number of frames of a run of [args.walk_frames] frames. *)
Definition walk_count (a : args.t) : nat := Z.to_nat (args.walk_frames a).

(** [name_order] after both loops. *)
Definition collected_names (a : args.t) : list string :=
  [static_name a "front"; static_name a "back";
   static_name a "left"; static_name a "right"]
  ++ (walk_name a "front" <$> seq 0 (walk_count a))
  ++ (walk_name a "back" <$> seq 0 (walk_count a))
  ++ (walk_name a "left" <$> seq 0 (walk_count a))
  ++ (walk_name a "right" <$> seq 0 (walk_count a)).

(** The box of the static pose of a direction. *)
Definition static_box (a : args.t) (row : Z) : Box :=
  cell_box (args.frame_width a) (args.frame_height a) row (args.static_col a).

(** The boxes of the walk frames of a direction. *)
Definition walk_boxes (a : args.t) (row : Z) : list Box :=
  run_boxes (args.frame_width a) (args.frame_height a) row
    (args.start_col a) (args.walk_frames a).

(** The boxes [main] crops from the sheet, in the order it crops them. *)
Definition collected_boxes (a : args.t) : list Box :=
  [static_box a (args.front_row a); static_box a (args.back_row a);
   static_box a (args.left_row a); static_box a (args.right_row a)]
  ++ walk_boxes a (args.front_row a) ++ walk_boxes a (args.back_row a)
  ++ walk_boxes a (args.left_row a) ++ walk_boxes a (args.right_row a).

(** The frames of a run, each as its label and the box it is cropped from,
    in the order the specification gives: the static pose of each direction,
    then the walk frames of each direction. *)
Definition static_label (a : args.t) (d : string * Z) : string * Box :=
  (args.id a +:+ "-" +:+ d.1,
   cell_box (args.frame_width a) (args.frame_height a) d.2 (args.static_col a)).

Definition walk_labels (a : args.t) (d : string * Z) : list (string * Box) :=
  (fun i => (args.id a +:+ "-" +:+ d.1 +:+ "-walk-" +:+ fmt_04d i,
             cell_box (args.frame_width a) (args.frame_height a) d.2
               (args.start_col a + Z.of_nat i)))
    <$> seq 0 (Z.to_nat (args.walk_frames a)).

Definition labelled_boxes (a : args.t) : list (string * Box) :=
  let dirs := [("front", args.front_row a); ("back", args.back_row a);
               ("left", args.left_row a); ("right", args.right_row a)]%string in
  (static_label a <$> dirs) ++ (dirs ≫= walk_labels a).

Section Vocabulary.
Context {L : ImageLib}.

(** [images] are the crops of [boxes] from [sheet], one for one. *)
Definition crops_of (sheet : Image) (boxes : list Box) (images : list Image)
    : Prop :=
  Forall2 (fun box img => image_crop sheet box = Ok img) boxes images.

(** The atlas after the frames from index [idx] on are pasted. *)
Fixpoint paste_cells (frame_w frame_h cols : Z) (idx : nat) (frames : list Image)
    (atlas : Image) : Image :=
  match frames with
  | [] => atlas
  | frame :: rest =>
      paste_cells frame_w frame_h cols (S idx) rest
        (image_paste atlas frame
           ((Z.of_nat idx `mod` cols) * frame_w, (Z.of_nat idx `div` cols) * frame_h))
  end.

(** The pixel [(a, b)] of the atlas is written when frame [f] is pasted as
    the frame of index [idx]: [paste] writes a box of the size of [f]. *)
Definition pasted_over (frame_w frame_h cols : Z) (idx : nat) (f : Image)
    (a b : Z) : Prop :=
  in_bounds (image_size f)
    (a - (Z.of_nat idx `mod` cols) * frame_w)
    (b - (Z.of_nat idx `div` cols) * frame_h).

(** Every frame has the size of a cell. *)
Definition cell_sized (frame_w frame_h : Z) (frames : list Image) : Prop :=
  Forall (fun f => image_size f = (frame_w, frame_h)) frames.

End Vocabulary.

(** * Part III: a model of the imaging library, and sample runs *)

(** ** Pixel grids *)

Record Grid : Type := {
  grid_w : Z;
  grid_h : Z;
  grid_px : Z → Z → Pixel;
}.

(** The extents of a grid are read within the range of a C [int]; no
    operation below builds a grid outside it. *)
Definition clamp (z : Z) : Z := Z.min (Z.max 0 z) c_int_max.

Definition grid_size (g : Grid) : Z * Z := (clamp (grid_w g), clamp (grid_h g)).

Definition grid_getpixel (g : Grid) (a b : Z) : option Pixel :=
  if decide (in_bounds (grid_size g) a b) then Some (grid_px g a b)
  else None.

Definition grid_new (sz : Z * Z) (c : Pixel) : result Grid :=
  if decide (sz.1 < 0 ∨ sz.2 < 0) then Raise ValueError
  else if decide (c_int_max < sz.1 ∨ c_int_max < sz.2) then Raise OverflowError
  else Ok {| grid_w := sz.1; grid_h := sz.2; grid_px := fun _ _ => c |}.

(** A crop past the extent of the image is filled with transparent pixels. *)
Definition grid_crop (g : Grid) (box : Box) : result Grid :=
  let '(x0, y0, x1, y1) := box in
  if decide (x1 < x0 ∨ y1 < y0) then Raise ValueError
  else if decide (c_int_max < x1 - x0 ∨ c_int_max < y1 - y0) then Raise OverflowError
  else Ok {| grid_w := x1 - x0;
             grid_h := y1 - y0;
             grid_px := fun u v =>
               default (0, 0, 0, 0) (grid_getpixel g (x0 + u) (y0 + v)) |}.

Definition grid_paste (dst src : Grid) (p : Z * Z) : Grid :=
  {| grid_w := grid_w dst;
     grid_h := grid_h dst;
     grid_px := fun a b =>
       match grid_getpixel src (a - p.1) (b - p.2) with
       | Some c => c
       | None => grid_px dst a b
       end |}.

#[export] Instance grid_lib : ImageLib := {|
  Image := Grid;
  image_size := grid_size;
  image_getpixel := grid_getpixel;
  image_new := grid_new;
  image_crop := grid_crop;
  image_paste := grid_paste;
|}.

(** ** Sample data *)

(** A sheet of 13 by 4 cells of 2 by 2 pixels: the pixel at [(a, b)] is
    [(a, b, 0, 255)]. *)
Definition sample_sheet : Grid :=
  {| grid_w := 26; grid_h := 8; grid_px := fun a b => (a, b, 0, 255) |}.

Definition sample_args : args.t :=
  {| args.image := "sheet.png"; args.id := "hero";
     args.frame_width := 2; args.frame_height := 2; args.cols := 13;
     args.start_col := 0; args.walk_frames := 9;
     args.front_row := 2; args.left_row := 1; args.right_row := 3;
     args.back_row := 0; args.static_col := 0; args.atlas_cols := 10;
     args.out := "out" |}.

(** The frames a call returns, and none if it raises. *)
Definition frames_of (r : result (list Grid)) : list Grid :=
  match r with
  | Ok l => l
  | Raise _ => []
  end.

(** Three frames cut from the sample sheet. *)
Definition sample_frames : list Grid :=
  frames_of (slice_frames sample_sheet 2 2 1 3 3).

(** Eight frames, as a sheet with 8-wide walk cycles would give. *)
Definition eight_frames : list Grid :=
  frames_of (slice_frames sample_sheet 2 2 1 1 8).

(** Two frames of 3 by 2 pixels, wider than a cell of 2 by 2. *)
Definition wide_frames : list Grid :=
  [ {| grid_w := 3; grid_h := 2; grid_px := fun a b => (a, b, 1, 255) |};
    {| grid_w := 3; grid_h := 2; grid_px := fun a b => (a, b, 2, 255) |} ].

(** The sample arguments with other [--image], [--cols] and [--out]. *)
Definition sample_args_other_paths : args.t :=
  {| args.image := "other.png"; args.id := "hero";
     args.frame_width := 2; args.frame_height := 2; args.cols := 8;
     args.start_col := 0; args.walk_frames := 9;
     args.front_row := 2; args.left_row := 1; args.right_row := 3;
     args.back_row := 0; args.static_col := 0; args.atlas_cols := 10;
     args.out := "elsewhere" |}.

(** The arguments of a run with a negative [--walk-frames]. *)
Definition negative_walk_args : args.t :=
  {| args.image := "sheet.png"; args.id := "hero";
     args.frame_width := 2; args.frame_height := 2; args.cols := 13;
     args.start_col := 0; args.walk_frames := -1;
     args.front_row := 2; args.left_row := 1; args.right_row := 3;
     args.back_row := 0; args.static_col := 0; args.atlas_cols := 10;
     args.out := "out" |}.

(** The arguments of a run with a negative [--frame-width]. *)
Definition negative_width_args : args.t :=
  {| args.image := "sheet.png"; args.id := "hero";
     args.frame_width := -2; args.frame_height := 2; args.cols := 13;
     args.start_col := 0; args.walk_frames := 9;
     args.front_row := 2; args.left_row := 1; args.right_row := 3;
     args.back_row := 0; args.static_col := 0; args.atlas_cols := 10;
     args.out := "out" |}.


(** * Part IV: properties *)

(** ** The pixel grids satisfy the laws *)

Lemma clamp_range z : 0 ≤ clamp z ≤ c_int_max.
Proof. unfold clamp, c_int_max. lia. Qed.

Lemma clamp_id z : 0 ≤ z ≤ c_int_max → clamp z = z.
Proof. unfold clamp, c_int_max. lia. Qed.

#[export] Instance grid_laws : ImageLaws grid_lib.
Proof.
  split.
  - intros g. cbn. pose proof (clamp_range (grid_w g)).
    pose proof (clamp_range (grid_h g)). lia.
  - intros sz c Hneg. cbn. unfold grid_new. by rewrite decide_True.
  - intros [sw sh] c im. cbn. unfold grid_new. cbn.
    repeat case_decide; try done. intros [= <-]. cbn. unfold grid_size. cbn.
    by rewrite !clamp_id by lia.
  - intros g x0 y0 x1 y1 Hinv. cbn. by rewrite decide_True.
  - intros g x0 y0 x1 y1 f. cbn.
    repeat case_decide; try done. intros [= <-]. unfold grid_size. cbn.
    by rewrite !clamp_id by lia.
  - done.
  - intros g a b. cbn. unfold grid_getpixel.
    destruct (decide _) as [Hb|Hb]; split; intros Hs; try done.
    all: by destruct Hs.
  - intros g x0 y0 x1 y1 f u v. cbn.
    repeat case_decide; try done. intros [= <-] Hc Hg.
    unfold grid_getpixel at 1. rewrite decide_True.
    + cbn. unfold grid_getpixel. by rewrite decide_True.
    + unfold grid_size. cbn.
      by rewrite (clamp_id (x1 - x0)), (clamp_id (y1 - y0)) by lia.
  - intros dst src x0 y0 a b. cbn. unfold grid_getpixel.
    change (grid_size (grid_paste dst src (x0, y0))) with (grid_size dst). cbn.
    destruct (decide (in_bounds (grid_size dst) a b)) as [Hd|Hd];
      destruct (decide (in_bounds (grid_size src) (a - x0) (b - y0)))
        as [Hs|Hs].
    all: unfold grid_getpixel.
    + by rewrite !decide_True.
    + by rewrite !decide_False by tauto.
    + by rewrite decide_False by tauto.
    + by rewrite decide_False by tauto.
Qed.

#[export] Instance grid_new_law : ImageNewLaw grid_lib.
Proof.
  split. intros [sw sh] c im a b. cbn. unfold grid_new. cbn.
  repeat case_decide; try done. intros [= <-] Hb.
  unfold grid_getpixel. rewrite decide_True; [done|].
  unfold grid_size. cbn. by rewrite (clamp_id sw), (clamp_id sh) by lia.
Qed.

(** ** The float quotient below [2^53] *)

Lemma pow2_pos k : 0 < pow2 k.
Proof. unfold pow2. apply Z.pow_pos_nonneg; lia. Qed.

Lemma pow2_nonpos k : k ≤ 0 → pow2 k = 1.
Proof. intros Hk. unfold pow2. by replace (Z.max k 0) with 0 by lia. Qed.

Lemma pow2_nonneg k : 0 ≤ k → pow2 k = 2 ^ k.
Proof. intros Hk. unfold pow2. by replace (Z.max k 0) with k by lia. Qed.

(** [2 ** quotient_log2 a b <= a / b]. *)
Lemma quotient_log2_lower a b :
  0 < a → 0 < b →
  b * pow2 (quotient_log2 a b) ≤ a * pow2 (- quotient_log2 a b).
Proof.
  intros Ha Hb. unfold quotient_log2.
  set (d := Z.log2 a - Z.log2 b).
  destruct (decide _) as [Hle|Hgt]; [done|].
  pose proof (Z.log2_spec a Ha) as [Hla _].
  pose proof (Z.log2_spec b Hb) as [_ Hlb].
  pose proof (Z.log2_nonneg a). pose proof (Z.log2_nonneg b).
  destruct (decide (1 ≤ d)) as [Hd|Hd].
  - rewrite (pow2_nonneg (d - 1)), (pow2_nonpos (- (d - 1))) by lia.
    assert (2 ^ Z.log2 a = 2 ^ (Z.log2 b + 1) * 2 ^ (d - 1)) as Hsplit.
    { rewrite <- Z.pow_add_r by lia. f_equal. lia. }
    assert (0 < 2 ^ (d - 1)) by (apply Z.pow_pos_nonneg; lia).
    nia.
  - rewrite (pow2_nonpos (d - 1)), (pow2_nonneg (- (d - 1))) by lia.
    assert (2 ^ Z.log2 a * 2 ^ (- (d - 1)) = 2 ^ (Z.log2 b + 1)) as Hsplit.
    { rewrite <- Z.pow_add_r by lia. f_equal. lia. }
    assert (0 < 2 ^ (- (d - 1))) by (apply Z.pow_pos_nonneg; lia).
    nia.
Qed.

Lemma round_half_even_exact n d : 0 < d → round_half_even (n * d) d = n.
Proof.
  intros Hd. unfold round_half_even.
  rewrite Z.div_mul, Z.mod_mul by lia.
  by rewrite decide_True by lia.
Qed.

(** Rounding to the nearest integer stays between the integers around, and
    leaves the lower one only when the remainder exceeds one half. *)
Lemma round_half_even_between num den lo :
  0 < den → den * lo < num < den * (lo + 1) → den < 2 * (num - den * lo) →
  round_half_even num den = lo + 1.
Proof.
  intros Hd Hn Hhalf. unfold round_half_even.
  assert (num `div` den = lo) as Hq.
  { symmetry. apply (Z.div_unique num den lo (num - den * lo)); lia. }
  assert (num `mod` den = num - den * lo) as Hr.
  { pose proof (Z.div_mod num den ltac:(lia)). rewrite Hq in *. lia. }
  rewrite Hq, Hr. rewrite decide_False by lia. by rewrite decide_True by lia.
Qed.

Lemma round_half_even_bounds num den :
  0 < den → 0 ≤ num →
  den * (round_half_even num den - 1) < num ∧
  num < den * (round_half_even num den + 1).
Proof.
  intros Hd Hn. unfold round_half_even.
  pose proof (Z.div_mod num den ltac:(lia)) as Hdm.
  pose proof (Z.mod_pos_bound num den Hd) as Hb.
  repeat case_decide; try destruct (Z.even _); nia.
Qed.

Lemma ceil_of_scaled m p c :
  0 < p → p * (c - 1) < m ≤ p * c → - ((- m) `div` p) = c.
Proof.
  intros Hp Hm.
  assert ((- m) `div` p = - c) as ->; [|lia].
  symmetry. apply (Z.div_unique (- m) p (- c) (p * c - m)); lia.
Qed.

(** Below [2 ** 53] the ceiling of the rounded quotient is the ceiling of
    the quotient. *)
Lemma py_ceil_truediv_exact a b :
  0 ≤ a < 2 ^ 53 → 1 ≤ b < 2 ^ 53 →
  py_ceil_truediv a b = Ok (- ((- a) `div` b)).
Proof.
  intros Ha Hb. unfold py_ceil_truediv.
  rewrite decide_False by lia.
  destruct (decide (a = 0)) as [->|Ha0]; [by rewrite Z.div_0_l by lia|].
  rewrite (Z.abs_eq a), (Z.abs_eq b) by lia.
  pose proof (quotient_log2_lower a b ltac:(lia) ltac:(lia)) as Hlow.
  unfold float_mantissa, float_exponent.
  set (e0 := quotient_log2 a b) in *.
  assert (e0 ≤ 52) as He0.
  { destruct (decide (e0 ≤ 52)) as [|Hbig]; [done|]. exfalso.
    rewrite (pow2_nonneg e0), (pow2_nonpos (- e0)) in Hlow by lia.
    assert (2 ^ 53 ≤ 2 ^ e0) by (apply Z.pow_le_mono_r; lia). nia. }
  set (e := Z.max (e0 - 52) (-1074)).
  assert (e ≤ 0) as He by lia.
  rewrite (pow2_nonpos e) by done. rewrite !Z.mul_1_r.
  set (k := - e). assert (0 ≤ k ≤ 1074) as Hk by lia.
  rewrite (pow2_nonneg k), (pow2_nonneg 1024) by lia.
  set (P := 2 ^ k). assert (0 < P) as HP by (apply Z.pow_pos_nonneg; lia).
  (* the grid is finer than [2 / b] *)
  assert (b < 2 * P) as Hfine.
  { unfold P. rewrite <- Z.pow_succ_r by lia.
    destruct (decide (k = 1074)) as [->|Hk'].
    - assert (2 ^ 53 ≤ 2 ^ Z.succ 1074) by (apply Z.pow_le_mono_r; lia). lia.
    - assert (k = 52 - e0) as -> by lia.
      destruct (decide (0 ≤ e0)) as [Hpos|Hneg].
      + rewrite (pow2_nonneg e0), (pow2_nonpos (- e0)) in Hlow by lia.
        assert (2 ^ 53 = 2 ^ Z.succ (52 - e0) * 2 ^ e0) as Hsplit.
        { rewrite <- Z.pow_add_r by lia. f_equal. lia. }
        assert (0 < 2 ^ e0) by (apply Z.pow_pos_nonneg; lia).
        nia.
      + assert (2 ^ 53 ≤ 2 ^ Z.succ (52 - e0)) by (apply Z.pow_le_mono_r; lia).
        lia. }
  set (m := round_half_even (a * P) b).
  pose proof (round_half_even_bounds (a * P) b ltac:(lia) ltac:(nia)) as [Hm1 Hm2].
  fold m in Hm1, Hm2.
  (* no overflow *)
  rewrite decide_False.
  2:{ assert (2 ^ 53 ≤ 2 ^ 1024) by (apply Z.pow_le_mono_r; lia). nia. }
  rewrite decide_True by nia. f_equal.
  pose proof (Z.div_mod a b ltac:(lia)) as Hdm.
  pose proof (Z.mod_pos_bound a b ltac:(lia)) as Hrb.
  set (F := a `div` b) in *. set (r := a `mod` b) in *.
  destruct (decide (r = 0)) as [Hr0|Hr0].
  - (* the quotient is an integer *)
    assert (a = F * b) as Hab by lia.
    assert (m = F * P) as ->.
    { unfold m. rewrite Hab.
      replace (F * b * P) with ((F * P) * b) by lia.
      apply round_half_even_exact. lia. }
    rewrite (ceil_of_scaled (F * P) P F) by lia.
    symmetry. apply ceil_of_scaled; lia.
  - assert (- ((- a) `div` b) = F + 1) as -> by (apply ceil_of_scaled; lia).
    apply ceil_of_scaled; [done|].
    assert (F * P < m).
    { destruct (decide (F * P < m)) as [|Hle]; [done|]. exfalso.
      assert (b * (F * P) < a * P) by nia.
      destruct (decide (a * P < b * (F * P + 1))) as [Hlt|Hge].
      - assert (m = F * P + 1); [|lia].
        apply round_half_even_between; [lia|lia|nia].
      - nia. }
    split; [lia|].
    assert (a * P < b * ((F + 1) * P)) by nia.
    nia.
Qed.

(** ** Arithmetic of the grid *)

(** The ceiling of [n / c] for a positive [c]. *)
Lemma ceil_div_spec (n c : Z) :
  0 < c → c * (ceil_div n c - 1) < n ≤ c * ceil_div n c.
Proof.
  intros Hc. unfold ceil_div.
  pose proof (Z.div_mod (- n) c ltac:(lia)) as Hdm.
  pose proof (Z.mod_pos_bound (- n) c Hc) as Hb.
  nia.
Qed.

Lemma ceil_div_unique (n c rows : Z) :
  0 < c → c * (rows - 1) < n ≤ c * rows → ceil_div n c = rows.
Proof. intros Hc Hr. unfold ceil_div. by apply ceil_of_scaled. Qed.

(** A pixel lies in one cell of a row of cells of side [s]. *)
Lemma same_cell (c c' s a : Z) :
  c * s ≤ a < c * s + s → c' * s ≤ a < c' * s + s → c = c'.
Proof.
  intros H1 H2. assert (0 < s) as Hs by lia.
  destruct (Z.lt_trichotomy c c') as [Hlt|[Heq|Hgt]]; [|done|].
  - assert (0 ≤ (c' - c - 1) * s) by (apply Z.mul_nonneg_nonneg; lia). lia.
  - assert (0 ≤ (c - c' - 1) * s) by (apply Z.mul_nonneg_nonneg; lia). lia.
Qed.

Lemma cell_rect_disjoint frame_w frame_h cols (i j : nat) :
  1 ≤ cols → i ≠ j →
  rects_disjoint (cell_rect frame_w frame_h cols i) (cell_rect frame_w frame_h cols j).
Proof.
  intros Hc Hij a b [[Ha Hb] [Ha' Hb']].
  pose proof (Z.div_mod (Z.of_nat i) cols ltac:(lia)) as Hi.
  pose proof (Z.div_mod (Z.of_nat j) cols ltac:(lia)) as Hj.
  pose proof (same_cell _ _ _ _ Ha Ha') as Hcol.
  pose proof (same_cell _ _ _ _ Hb Hb') as Hrow.
  apply Hij, Nat2Z.inj. rewrite Hi, Hj. by rewrite Hcol, Hrow.
Qed.


(** ** Loops that may raise *)

Lemma result_bind_ret {A} (m : result A) : (m ≫= mret) = m.
Proof. by destruct m. Qed.

Lemma result_map_app {A B} (g : A → result B) (l1 l2 : list A) :
  result_map g (l1 ++ l2) =
    ys1 ← result_map g l1; ys2 ← result_map g l2; mret (ys1 ++ ys2).
Proof.
  induction l1 as [|v l1 IH]; cbn.
  - by destruct (result_map g l2).
  - destruct (g v) as [y|e]; cbn; [|done]. rewrite IH.
    destruct (result_map g l1) as [ys1|e]; cbn; [|done].
    by destruct (result_map g l2).
Qed.

Lemma result_map_fmap {A B C} (g : B → result C) (h : A → B) (l : list A) :
  result_map g (h <$> l) = result_map (fun v => g (h v)) l.
Proof. induction l as [|v l IH]; cbn; [done|]. by rewrite IH. Qed.

Lemma result_map_Ok {A B} (g : A → result B) (l : list A) (ys : list B) :
  result_map g l = Ok ys ↔ Forall2 (fun v y => g v = Ok y) l ys.
Proof.
  split.
  - revert ys. induction l as [|v l IH]; intros ys Hmap; cbn in Hmap.
    + injection Hmap as <-. constructor.
    + destruct (g v) as [y|e] eqn:Ev; cbn in Hmap; [|done].
      destruct (result_map g l) as [ys'|e]; cbn in Hmap; [|done].
      injection Hmap as <-. constructor; [done|]. by apply IH.
  - induction 1 as [|v y l ys Hy _ IH]; cbn; [done|].
    by rewrite Hy, IH.
Qed.

(** A loop that appends what each call returns is a [result_map]. *)
Lemma for_each_snoc_map {A B} (g : A → result B) (l : list A) (acc : list B) :
  for_each (fun acc v => y ← g v; mret (acc ++ [y])) acc l =
    ys ← result_map g l; mret (acc ++ ys).
Proof.
  revert acc. induction l as [|v l IH]; intros acc; cbn.
  - by rewrite app_nil_r.
  - destruct (g v) as [y|e]; cbn; [|done]. rewrite IH.
    destruct (result_map g l) as [ys|e]; cbn; [|done].
    by rewrite <- app_assoc.
Qed.

Lemma zip_fmap_same {A B C} (f : A → B) (g : A → C) (l : list A) :
  zip (f <$> l) (g <$> l) = (fun i => (f i, g i)) <$> l.
Proof. induction l as [|i l IH]; cbn; [done|]. by rewrite IH. Qed.

Section SlicerFacts.
Context {L : ImageLib}.

Lemma slice_frames_eq sheet frame_w frame_h row start_col count :
  slice_frames sheet frame_w frame_h row start_col count =
    result_map (image_crop sheet) (run_boxes frame_w frame_h row start_col count).
Proof.
  unfold slice_frames, py_range, run_boxes. rewrite result_map_fmap.
  etrans; [apply (for_each_snoc_map
    (fun i => image_crop sheet (cell_box frame_w frame_h row (start_col + i))))|].
  apply result_bind_ret.
Qed.

Lemma run_boxes_length frame_w frame_h row start_col count :
  length (run_boxes frame_w frame_h row start_col count) = Z.to_nat count.
Proof. unfold run_boxes. by rewrite length_fmap, length_seqZ. Qed.

Lemma slice_frames_Ok sheet frame_w frame_h row start_col count frames :
  slice_frames sheet frame_w frame_h row start_col count = Ok frames ↔
  crops_of sheet (run_boxes frame_w frame_h row start_col count) frames.
Proof. rewrite slice_frames_eq. apply result_map_Ok. Qed.

Lemma slice_frames_length sheet frame_w frame_h row start_col count frames :
  slice_frames sheet frame_w frame_h row start_col count = Ok frames →
  length frames = Z.to_nat count.
Proof.
  intros Hs. apply slice_frames_Ok, Forall2_length in Hs.
  by rewrite <- Hs, run_boxes_length.
Qed.

Lemma paste_loop_ok frame_w frame_h cols idx frames atlas rects :
  cols ≠ 0 →
  paste_loop frame_w frame_h cols idx frames atlas rects =
    Ok (paste_cells frame_w frame_h cols idx frames atlas,
        rects ++ (cell_rect frame_w frame_h cols <$> seq idx (length frames))).
Proof.
  intros Hc. revert idx atlas rects.
  induction frames as [|f rest IH]; intros idx atlas rects; simpl.
  - by rewrite app_nil_r.
  - unfold py_mod, py_floordiv. rewrite !decide_False by done. cbn.
    rewrite IH. by rewrite <- app_assoc.
Qed.

(** What [paste_frames_to_atlas] does when [cols] is not zero. *)
Lemma paste_frames_to_atlas_eq frames frame_w frame_h cols :
  cols ≠ 0 →
  paste_frames_to_atlas frames frame_w frame_h cols =
    rows ← py_ceil_truediv (Z.of_nat (length frames)) cols;
    atlas ← image_new (cols * frame_w, rows * frame_h) (0, 0, 0, 0);
    mret (paste_cells frame_w frame_h cols 0 frames atlas,
          cell_rect frame_w frame_h cols <$> seq 0 (length frames)).
Proof.
  intros Hc. unfold paste_frames_to_atlas.
  destruct (py_ceil_truediv _ _) as [rows|e]; cbn; [|done].
  destruct (image_new _ _) as [atlas|e]; cbn; [|done].
  by rewrite paste_loop_ok.
Qed.

Lemma paste_frames_to_atlas_zero frames frame_w frame_h :
  paste_frames_to_atlas frames frame_w frame_h 0 = Raise ZeroDivisionError.
Proof. done. Qed.

(** What a returning call of [paste_frames_to_atlas] did. *)
Lemma paste_frames_to_atlas_inv frames frame_w frame_h cols atlas rects :
  paste_frames_to_atlas frames frame_w frame_h cols = Ok (atlas, rects) →
  cols ≠ 0 ∧
  ∃ rows atlas0,
    py_ceil_truediv (Z.of_nat (length frames)) cols = Ok rows ∧
    image_new (cols * frame_w, rows * frame_h) (0, 0, 0, 0) = Ok atlas0 ∧
    atlas = paste_cells frame_w frame_h cols 0 frames atlas0 ∧
    rects = cell_rect frame_w frame_h cols <$> seq 0 (length frames).
Proof.
  intros Hpack.
  destruct (decide (cols = 0)) as [->|Hc];
    [by rewrite paste_frames_to_atlas_zero in Hpack|].
  split; [done|]. rewrite paste_frames_to_atlas_eq in Hpack by done.
  destruct (py_ceil_truediv _ _) as [rows|e]; cbn in Hpack; [|done].
  destruct (image_new _ _) as [atlas0|e] eqn:Hnew; cbn in Hpack; [|done].
  injection Hpack as <- <-. by exists rows, atlas0.
Qed.

Lemma paste_cells_size `{!ImageLaws L} frame_w frame_h cols idx frames atlas :
  image_size (paste_cells frame_w frame_h cols idx frames atlas) = image_size atlas.
Proof.
  revert idx atlas. induction frames as [|f rest IH]; intros idx atlas; simpl.
  - done.
  - by rewrite IH, size_paste.
Qed.

End SlicerFacts.

Lemma result_map_returns {A B} (g : A → result B) (l : list A) :
  (∀ v, v ∈ l → ∃ y, g v = Ok y) → ∃ ys, result_map g l = Ok ys.
Proof.
  induction l as [|v l IH]; intros Hall; cbn; [by eexists|].
  destruct (Hall v ltac:(by left)) as [y ->]. cbn.
  destruct IH as [ys ->]; [|by eexists].
  intros v' Hv'. apply Hall. by right.
Qed.

Section PackerClaims.
Context {L : ImageLib}.

(** C3, as amended: for every sheet, row, start column and [count >= 0],
    with [frame_w] and [frame_h] not negative [slice_frames] returns exactly
    when each of the [count] crops returns, and then returns exactly [count]
    frames, the frame at position [i], for [i] from [0] to [count - 1] in
    increasing order, being the crop of the rectangle with top-left corner
    [((start_col + i) * frame_w, row * frame_h)] and size [frame_w] by
    [frame_h]; with a negative [frame_w] or [frame_h] and [count >= 1] it
    raises [ValueError]. *)
Theorem slice_frames_count_and_crops `{!ImageLaws L}
    (sheet : Image) (frame_w frame_h row start_col count : Z) :
  0 ≤ count →
  ((frame_w < 0 ∨ frame_h < 0) → 1 ≤ count →
     slice_frames sheet frame_w frame_h row start_col count = Raise ValueError) ∧
  ((∀ i, 0 ≤ i < count →
      ∃ f, image_crop sheet ((start_col + i) * frame_w, row * frame_h,
                             (start_col + i) * frame_w + frame_w,
                             row * frame_h + frame_h) = Ok f) →
     ∃ frames, slice_frames sheet frame_w frame_h row start_col count = Ok frames) ∧
  (∀ frames,
     slice_frames sheet frame_w frame_h row start_col count = Ok frames →
     Z.of_nat (length frames) = count ∧
     ∀ i, 0 ≤ i < count →
       0 ≤ frame_w ∧ 0 ≤ frame_h ∧
       ∃ f, frames !! Z.to_nat i = Some f ∧
            image_crop sheet ((start_col + i) * frame_w, row * frame_h,
                              (start_col + i) * frame_w + frame_w,
                              row * frame_h + frame_h) = Ok f ∧
            image_size f = (frame_w, frame_h) ∧
            ∀ u v, 0 ≤ u < frame_w → 0 ≤ v < frame_h →
              in_bounds (image_size sheet)
                ((start_col + i) * frame_w + u) (row * frame_h + v) →
              image_getpixel f u v =
                image_getpixel sheet ((start_col + i) * frame_w + u)
                                     (row * frame_h + v)).
Proof.
  intros Hcount. split; [|split].
  - intros Hneg Hone. rewrite slice_frames_eq. unfold run_boxes.
    rewrite seqZ_cons by lia. cbn. unfold cell_box.
    rewrite crop_inverted; [done|]. lia.
  - intros Hall. rewrite slice_frames_eq. apply result_map_returns.
    intros box Hbox. unfold run_boxes in Hbox.
    apply list_elem_of_fmap in Hbox as (i & -> & Hi).
    apply list_elem_of_lookup in Hi as [k Hk].
    apply lookup_seqZ in Hk as [-> Hk]. apply Hall. lia.
  - intros frames Hs. split.
    + rewrite (slice_frames_length _ _ _ _ _ _ _ Hs). lia.
    + intros i Hi. apply slice_frames_Ok in Hs.
      assert (run_boxes frame_w frame_h row start_col count !! Z.to_nat i
              = Some (cell_box frame_w frame_h row (start_col + i))) as Hbox.
      { unfold run_boxes. rewrite list_lookup_fmap.
        rewrite (lookup_seqZ_lt 0 count (Z.to_nat i)) by lia. cbn.
        by rewrite Z2Nat.id by lia. }
      destruct (Forall2_lookup_l _ _ _ _ _ Hs Hbox) as (f & Hf & Hcrop).
      unfold cell_box in Hcrop.
      assert (0 ≤ frame_w ∧ 0 ≤ frame_h) as [Hw Hh].
      { destruct (decide (frame_w < 0 ∨ frame_h < 0)) as [Hneg|]; [|lia].
        rewrite crop_inverted in Hcrop by lia. done. }
      split; [done|]. split; [done|].
      exists f. split; [done|]. split; [done|]. split.
      * rewrite (size_crop _ _ _ _ _ _ Hcrop). f_equal; lia.
      * intros u v Hu Hv Hin. apply (getpixel_crop _ _ _ _ _ _ _ _ Hcrop); [|done].
        split; cbn; lia.
Qed.

(** C9: [paste_frames_to_atlas] is total only under the precondition
    [columns >= 1].  For [cols == 0] the call raises [ZeroDivisionError], for
    every frame list and frame size, at [math.ceil(len(frames) / cols)],
    before any bitmap or rect is produced, and [idx % cols] raises it as
    well.  For [cols < 0] the call is not total either: with a positive
    frame width it raises for every frame list, [Image.new] being asked for
    a negative width. *)
Theorem paste_frames_to_atlas_zero_cols `{!ImageLaws L}
    (frames : list Image) (frame_w frame_h cols : Z) :
  (cols = 0 →
     py_ceil_truediv (Z.of_nat (length frames)) cols = Raise ZeroDivisionError ∧
     (∀ idx : nat, py_mod (Z.of_nat idx) cols = Raise ZeroDivisionError) ∧
     paste_frames_to_atlas frames frame_w frame_h cols = Raise ZeroDivisionError) ∧
  (cols < 0 → 0 < frame_w →
     paste_frames_to_atlas frames frame_w frame_h cols = Raise ValueError ∨
     paste_frames_to_atlas frames frame_w frame_h cols = Raise OverflowError).
Proof.
  split.
  - intros ->. done.
  - intros Hc Hw. rewrite paste_frames_to_atlas_eq by lia.
    unfold py_ceil_truediv. rewrite decide_False by lia.
    repeat case_decide; cbn; try (by right);
      left; rewrite new_negative; try done; left; cbn; nia.
Qed.

(** C7, as amended: for the empty frame list and any [columns >= 1],
    [rows] is [0] and [paste_frames_to_atlas] returns exactly when
    [Image.new((columns * frame_w, 0))] returns, with that bitmap, of width
    [columns * frame_w] and height [0], and the empty rect list; for a
    negative [frame_w] it raises [ValueError]. *)
Theorem paste_frames_to_atlas_empty `{!ImageLaws L} (frame_w frame_h cols : Z) :
  1 ≤ cols →
  py_ceil_truediv (Z.of_nat (length (@nil Image))) cols = Ok 0 ∧
  (frame_w < 0 →
     paste_frames_to_atlas [] frame_w frame_h cols = Raise ValueError) ∧
  (∀ e, image_new (cols * frame_w, 0) (0, 0, 0, 0) = Raise e →
        paste_frames_to_atlas [] frame_w frame_h cols = Raise e) ∧
  (∀ atlas, image_new (cols * frame_w, 0) (0, 0, 0, 0) = Ok atlas →
            paste_frames_to_atlas [] frame_w frame_h cols = Ok (atlas, []) ∧
            image_size atlas = (cols * frame_w, 0)).
Proof.
  intros Hc.
  assert (py_ceil_truediv (Z.of_nat (length (@nil Image))) cols = Ok 0) as Hrows.
  { unfold py_ceil_truediv. rewrite decide_False by lia. by rewrite decide_True. }
  assert (paste_frames_to_atlas [] frame_w frame_h cols =
          (atlas ← image_new (cols * frame_w, 0) (0, 0, 0, 0); mret (atlas, [])))
    as Heq.
  { unfold paste_frames_to_atlas. rewrite Hrows. cbn.
    by destruct (image_new _ _). }
  split; [done|]. split; [|split].
  - intros Hneg. rewrite Heq, new_negative; [done|]. left. cbn. nia.
  - intros e He. by rewrite Heq, He.
  - intros atlas Hnew. rewrite Heq, Hnew. split; [done|].
    by apply size_new in Hnew.
Qed.


(** C1: for every frame list, frame width, frame height and column count
    [columns >= 1], the destination rectangles that [paste_frames_to_atlas]
    assigns are pairwise disjoint: the rects at two distinct indices share
    no pixel. *)
Theorem paste_frames_to_atlas_disjoint
    (frames : list Image) (frame_w frame_h cols : Z)
    (atlas : Image) (rects : list Rect) (i j : nat) (ri rj : Rect) :
  1 ≤ cols →
  paste_frames_to_atlas frames frame_w frame_h cols = Ok (atlas, rects) →
  i ≠ j →
  rects !! i = Some ri →
  rects !! j = Some rj →
  rects_disjoint ri rj.
Proof.
  intros Hc Hpack Hij Hi Hj.
  apply paste_frames_to_atlas_inv in Hpack as (_ & _ & _ & _ & _ & _ & ->).
  rewrite list_lookup_fmap in Hi, Hj.
  destruct (seq 0 (length frames) !! i) as [i'|] eqn:Ei; [|done].
  destruct (seq 0 (length frames) !! j) as [j'|] eqn:Ej; [|done].
  apply lookup_seq in Ei as [-> _]. apply lookup_seq in Ej as [-> _].
  cbn in Hi, Hj. injection Hi as <-. injection Hj as <-.
  by apply cell_rect_disjoint.
Qed.

End PackerClaims.

(** ** Frame names *)

Lemma zeros_app_length k s :
  String.length (zeros k +:+ s) = (k + String.length s)%nat.
Proof.
  induction k as [|k IH]; [done|].
  change (zeros (S k) +:+ s) with (String "0" (zeros k +:+ s)).
  cbn [String.length]. by rewrite IH.
Qed.

Lemma fmt_04d_length i : (4 ≤ String.length (fmt_04d i))%nat.
Proof. unfold fmt_04d. rewrite zeros_app_length. lia. Qed.

Lemma read_decimal_zeros k s : read_decimal (zeros k +:+ s) = read_decimal s.
Proof.
  induction k as [|k IH]; [done|].
  unfold read_decimal in *.
  change (zeros (S k) +:+ s) with (String "0" (zeros k +:+ s)).
  change (NilEmpty.uint_of_string (String "0" (zeros k +:+ s)))
    with (uint_of_char "0" (NilEmpty.uint_of_string (zeros k +:+ s))).
  rewrite <- IH.
  by destruct (NilEmpty.uint_of_string (zeros k +:+ s)).
Qed.

Lemma read_decimal_fmt_04d i : read_decimal (fmt_04d i) = Some i.
Proof.
  unfold fmt_04d. rewrite read_decimal_zeros. unfold read_decimal.
  rewrite NilEmpty.usu. cbn. by rewrite Unsigned.of_to.
Qed.

#[export] Instance fmt_04d_inj : Inj (=) (=) fmt_04d.
Proof.
  intros i j Hij. apply (f_equal read_decimal) in Hij.
  rewrite !read_decimal_fmt_04d in Hij. by injection Hij.
Qed.

#[export] Instance string_app_inj (p : string) : Inj (=) (=) (String.app p).
Proof.
  intros s1 s2. induction p as [|c p IH]; cbn; [done|].
  intros Heq. injection Heq as Heq. by apply IH.
Qed.

#[export] Instance walk_suffix_inj dir_key : Inj (=) (=) (walk_suffix dir_key).
Proof.
  intros i j Hij. unfold walk_suffix in Hij.
  by apply (inj (String.app dir_key)), (inj (String.app "-walk-")), (inj fmt_04d) in Hij.
Qed.

Lemma walk_suffixes_NoDup dir_key n : NoDup (walk_suffix dir_key <$> seq 0 n).
Proof. apply (NoDup_fmap_2 _), NoDup_seq. Qed.

Ltac suffix_clash :=
  repeat match goal with
  | H : _ ∈ _ <$> _ |- _ => apply list_elem_of_fmap in H as (? & ? & _)
  | H : _ ∈ _ ++ _ |- _ => apply elem_of_app in H as [H|H]
  | H : _ ∈ _ :: _ |- _ => apply elem_of_cons in H as [H|H]
  | H : _ ∈ [] |- _ => by apply elem_of_nil in H
  end;
  unfold walk_suffix in *; simplify_eq/=.

Lemma name_suffixes_NoDup n : NoDup (name_suffixes n).
Proof.
  unfold name_suffixes.
  repeat (apply NoDup_app; split; [|split]);
    try apply walk_suffixes_NoDup.
  - compute_done.
  - intros s Hs Hs'. suffix_clash.
  - intros s Hs Hs'. suffix_clash.
  - intros s Hs Hs'. suffix_clash.
  - intros s Hs Hs'. suffix_clash.
Qed.

(** ** Dictionaries built from distinct keys *)

Lemma dict_setitem_fresh {V} (d : PyDict V) k v :
  k ∉ dict_keys d → dict_setitem d k v = d ++ [(k, v)].
Proof.
  unfold dict_keys. induction d as [|[k' v'] d IH]; cbn; [done|].
  intros Hk. apply not_elem_of_cons in Hk as [Hne Hk].
  rewrite decide_False by done. by rewrite IH.
Qed.

Lemma foldl_setitem_fresh {V} (kvs : list (string * V)) (d : PyDict V) :
  NoDup (dict_keys d ++ kvs.*1) →
  foldl (fun acc '(k, v) => dict_setitem acc k v) d kvs = d ++ kvs.
Proof.
  revert d. induction kvs as [|[k v] kvs IH]; intros d Hnd; cbn.
  - by rewrite app_nil_r.
  - cbn in Hnd. rewrite dict_setitem_fresh.
    + rewrite IH; [by rewrite <- app_assoc|].
      unfold dict_keys in *. rewrite fmap_app. cbn.
      by rewrite <- app_assoc.
    + apply NoDup_app in Hnd as (_ & Hd & _).
      intros Hin. apply (Hd k Hin). by left.
Qed.

Lemma dict_get_lookup {V} (d : PyDict V) i k v :
  NoDup (dict_keys d) → d !! i = Some (k, v) → dict_get d k = Some v.
Proof.
  unfold dict_keys. revert i.
  induction d as [|[k' v'] d IH]; intros i Hnd Hi; [done|].
  cbn in Hnd. apply NoDup_cons in Hnd as [Hk' Hnd]. cbn.
  destruct i as [|i]; cbn in Hi.
  - injection Hi as -> ->. by rewrite decide_True.
  - rewrite decide_False; [by eapply IH|].
    intros ->. apply Hk'. apply list_elem_of_fmap. exists (k, v).
    split; [done|]. by eapply list_elem_of_lookup_2.
Qed.

Lemma zip_keys_NoDup {A B} (l : list A) (k : list B) :
  NoDup l → NoDup (zip l k).*1.
Proof.
  intros Hnd. rewrite <- (zip_with_take_l pair l k).
  rewrite fst_zip by (rewrite length_take; lia).
  eapply sublist_NoDup; [done|apply sublist_take].
Qed.

Lemma build_json_distinct name_order rects :
  NoDup name_order →
  build_json name_order rects = zip name_order (json_entry <$> rects).
Proof.
  intros Hnd. unfold build_json.
  replace (foldl _ [] (zip name_order rects))
    with (foldl (fun acc '(k, v) => dict_setitem acc k v) []
            (zip name_order (json_entry <$> rects))).
  - rewrite foldl_setitem_fresh; [done|]. cbn. by apply zip_keys_NoDup.
  - generalize (@nil (string * json.entry)).
    revert rects. induction name_order as [|n names IH]; intros [|r rects] acc;
      cbn; try done.
    apply IH. by apply NoDup_cons in Hnd as [_ ?].
Qed.

Lemma dict_get_elem {V} (d : PyDict V) k v :
  dict_get d k = Some v → (k, v) ∈ d.
Proof.
  induction d as [|[k' v'] d IH]; cbn; [done|].
  destruct (decide (k' = k)) as [->|Hne].
  - intros [= ->]. by left.
  - intros Hget. right. by apply IH.
Qed.

(** ** The loops of [main] *)

Lemma zip_Forall2_snd {A B C} (P : B → C → Prop) (ns : list A) bs cs :
  Forall2 P bs cs →
  Forall2 (fun nb nc => nc.1 = nb.1 ∧ P nb.2 nc.2) (zip ns bs) (zip ns cs).
Proof.
  intros HP. revert ns. induction HP as [|b c bs cs Hbc _ IH]; intros [|n ns]; cbn;
    try constructor; [done|apply IH].
Qed.

Section CollectFacts.
Context {L : ImageLib}.

Lemma emit_walk_spec a dir_key i frames (st : Collected) :
  emit_walk a dir_key i frames st =
    (st.1 ++ (walk_name a dir_key <$> seq i (length frames)), st.2 ++ frames).
Proof.
  revert i st. induction frames as [|f rest IH]; intros i [names images]; simpl.
  - by rewrite !app_nil_r.
  - rewrite IH. cbn. by rewrite <- !app_assoc.
Qed.

(** The guard of line 76 never holds on what [slice_frames] returns. *)
Lemma pad_guard_false a (frames : list Image) :
  length frames = walk_count a →
  ¬ (args.walk_frames a = 9 ∧ Z.of_nat (length frames) = 8).
Proof. unfold walk_count. intros -> [-> H8]. lia. Qed.

Lemma walk_boxes_length a row : length (walk_boxes a row) = walk_count a.
Proof. apply run_boxes_length. Qed.

Lemma walk_step_eq a sheet (st : Collected) dir_key row :
  walk_step a sheet st (dir_key, row) =
    frames ← result_map (image_crop sheet) (walk_boxes a row);
    mret (st.1 ++ (walk_name a dir_key <$> seq 0 (walk_count a)), st.2 ++ frames).
Proof.
  unfold walk_step. rewrite slice_frames_eq. fold (walk_boxes a row).
  destruct (result_map _ _) as [frames|e] eqn:Hmap;
    cbn [mbind result_bind]; [|done].
  assert (length frames = walk_count a) as Hlen.
  { apply result_map_Ok, Forall2_length in Hmap.
    by rewrite <- Hmap, walk_boxes_length. }
  unfold reconcile_and_emit, pad_walk.
  rewrite decide_False by by apply pad_guard_false.
  cbn. by rewrite emit_walk_spec, Hlen.
Qed.

(** [main] crops the boxes of [collected_boxes] in order and stops at the
    first crop that raises; the names do not depend on the crops. *)
Lemma collect_frames_eq a sheet :
  collect_frames a sheet =
    images ← result_map (image_crop sheet) (collected_boxes a);
    mret (collected_names a, images).
Proof.
  unfold collect_frames, directions, collected_boxes, static_box, cell_box.
  cbn [for_each static_step app result_map].
  rewrite !result_map_app.
  do 4 (match goal with
        | |- context [image_crop sheet ?box] =>
            destruct (image_crop sheet box) as [?|?];
            cbn [mbind result_bind mret result_ret fst snd]; [|done]
        end).
  do 4 (rewrite walk_step_eq;
        match goal with
        | |- context [result_map (image_crop sheet) (walk_boxes a ?row)] =>
            destruct (result_map (image_crop sheet) (walk_boxes a row)) as [?|?];
            cbn [mbind result_bind mret result_ret fst snd]; [|done]
        end).
  unfold collected_names. cbn [app]. by rewrite <- !app_assoc.
Qed.

Lemma collect_frames_Ok a sheet names images :
  collect_frames a sheet = Ok (names, images) ↔
  names = collected_names a ∧ crops_of sheet (collected_boxes a) images.
Proof.
  rewrite collect_frames_eq. unfold crops_of. rewrite <- result_map_Ok.
  destruct (result_map _ _) as [imgs|e]; cbn.
  - split; [by intros [= <- <-]|]. by intros [-> [= ->]].
  - split; [done|]. by intros [_ ?].
Qed.

Lemma collected_lengths a :
  length (collected_names a) = (4 + 4 * walk_count a)%nat ∧
  length (collected_boxes a) = (4 + 4 * walk_count a)%nat.
Proof.
  unfold collected_names, collected_boxes.
  rewrite !length_app, !length_fmap, !length_seq, !walk_boxes_length. cbn. lia.
Qed.

Lemma collected_names_suffixes a :
  collected_names a =
    (fun s => args.id a +:+ "-" +:+ s) <$> name_suffixes (walk_count a).
Proof.
  unfold collected_names, name_suffixes.
  rewrite !fmap_app, <- !list_fmap_compose. done.
Qed.

Lemma collected_names_NoDup a : NoDup (collected_names a).
Proof.
  rewrite collected_names_suffixes.
  apply NoDup_fmap_2; [|apply name_suffixes_NoDup].
  intros s1 s2 Hs.
  by apply (inj (String.app (args.id a))), (inj (String.app "-")) in Hs.
Qed.

Lemma walk_boxes_seq a row :
  walk_boxes a row =
    (fun i => cell_box (args.frame_width a) (args.frame_height a) row
                (args.start_col a + Z.of_nat i)) <$> seq 0 (walk_count a).
Proof.
  unfold walk_boxes, run_boxes, seqZ, walk_count.
  rewrite <- list_fmap_compose. apply list_fmap_ext.
  intros _ i _. cbn. by rewrite Z.add_0_r.
Qed.

Lemma labelled_boxes_zip a :
  labelled_boxes a = zip (collected_names a) (collected_boxes a).
Proof.
  unfold collected_names, collected_boxes, labelled_boxes.
  cbn [fmap list_fmap mbind list_bind app].
  unfold walk_labels, static_label, walk_name, static_name, static_box.
  rewrite !walk_boxes_seq. fold (walk_count a). cbn [fst snd].
  rewrite app_nil_r. cbn [zip_with]. do 4 f_equal.
  rewrite !zip_with_app by (by rewrite !length_fmap).
  by rewrite !zip_fmap_same.
Qed.

(** What [main] does: crop, pack, and record the rects under the names. *)
Lemma main_eq a sheet :
  main a sheet =
    images ← result_map (image_crop sheet) (collected_boxes a);
    '(atlas, rects) ← paste_frames_to_atlas images (args.frame_width a)
                        (args.frame_height a) (args.atlas_cols a);
    mret (atlas,
          {| json.frames := zip (collected_names a) (json_entry <$> rects);
             json.meta_image := "atlas.png" |}).
Proof.
  unfold main. rewrite collect_frames_eq.
  destruct (result_map _ _) as [images|e]; cbn [mbind result_bind mret result_ret];
    [|done].
  destruct (paste_frames_to_atlas _ _ _ _) as [[atlas rects]|e];
    cbn [mbind result_bind mret result_ret]; [|done].
  by rewrite build_json_distinct by apply collected_names_NoDup.
Qed.

(** What a returning run did. *)
Lemma main_inv a sheet atlas doc :
  main a sheet = Ok (atlas, doc) →
  ∃ images rects,
    crops_of sheet (collected_boxes a) images ∧
    paste_frames_to_atlas images (args.frame_width a) (args.frame_height a)
      (args.atlas_cols a) = Ok (atlas, rects) ∧
    rects = cell_rect (args.frame_width a) (args.frame_height a)
              (args.atlas_cols a) <$> seq 0 (length images) ∧
    doc = {| json.frames := zip (collected_names a) (json_entry <$> rects);
             json.meta_image := "atlas.png" |}.
Proof.
  rewrite main_eq. intros Hmain.
  destruct (result_map _ _) as [images|e] eqn:Hmap; cbn in Hmain; [|done].
  destruct (paste_frames_to_atlas _ _ _ _) as [[atlas' rects]|e] eqn:Hpack;
    cbn in Hmain; [|done].
  injection Hmain as <- <-. exists images, rects.
  split; [by apply result_map_Ok|]. split; [done|]. split; [|done].
  by apply paste_frames_to_atlas_inv in Hpack as (_ & _ & _ & _ & _ & _ & ->).
Qed.

Lemma crops_length a sheet images :
  crops_of sheet (collected_boxes a) images →
  length images = (4 + 4 * walk_count a)%nat.
Proof.
  intros Hc. apply Forall2_length in Hc.
  destruct (collected_lengths a) as [_ Hlen]. lia.
Qed.

Lemma manifest_keys a (rects : list Rect) :
  length rects = length (collected_names a) →
  dict_keys (zip (collected_names a) (json_entry <$> rects)) = collected_names a.
Proof.
  intros Hlen. unfold dict_keys. apply fst_zip. by rewrite length_fmap, Hlen.
Qed.

(** The first crop of a run raises when a frame size is negative. *)
Lemma collect_frames_negative `{!ImageLaws L} a sheet :
  args.frame_width a < 0 ∨ args.frame_height a < 0 →
  collect_frames a sheet = Raise ValueError.
Proof.
  intros Hneg. rewrite collect_frames_eq.
  unfold collected_boxes, static_box, cell_box. cbn [app result_map].
  rewrite !crop_inverted by lia. reflexivity.
Qed.



End CollectFacts.

(** ** Pixels of the atlas *)

Section AtlasPixels.
Context {L : ImageLib} `{!ImageLaws L}.

Lemma paste_miss frame_w frame_h cols idx f atlas a b :
  image_size f = (frame_w, frame_h) →
  ¬ rect_contains (cell_rect frame_w frame_h cols idx) a b →
  image_getpixel
    (image_paste atlas f
       ((Z.of_nat idx `mod` cols) * frame_w, (Z.of_nat idx `div` cols) * frame_h))
    a b = image_getpixel atlas a b.
Proof.
  intros Hsz Hout. rewrite getpixel_paste, Hsz.
  rewrite decide_False; [done|].
  intros [_ [Ha Hb]]. apply Hout. cbn in *. lia.
Qed.


(** Frames pasted into other cells leave a pixel as it is. *)
Lemma paste_cells_untouched frame_w frame_h cols idx frames atlas a b :
  cell_sized frame_w frame_h frames →
  (∀ k, (k < length frames)%nat →
        ¬ rect_contains (cell_rect frame_w frame_h cols (idx + k)) a b) →
  image_getpixel (paste_cells frame_w frame_h cols idx frames atlas) a b =
    image_getpixel atlas a b.
Proof.
  intros Hsz. revert idx atlas.
  induction Hsz as [|f rest Hf Hrest IH]; intros idx atlas Hout; [done|].
  cbn [paste_cells]. rewrite IH.
  - apply paste_miss; [done|].
    specialize (Hout 0%nat ltac:(cbn; lia)). by rewrite Nat.add_0_r in Hout.
  - intros k Hk. specialize (Hout (S k) ltac:(cbn; lia)).
    by replace (S idx + k)%nat with (idx + S k)%nat by lia.
Qed.


Lemma paste_cells_later_miss frame_w frame_h cols idx frames atlas a b :
  (∀ j f', frames !! j = Some f' →
           ¬ pasted_over frame_w frame_h cols (idx + j) f' a b) →
  image_getpixel (paste_cells frame_w frame_h cols idx frames atlas) a b =
    image_getpixel atlas a b.
Proof.
  revert idx atlas.
  induction frames as [|f rest IH]; intros idx atlas Hout; [done|].
  cbn [paste_cells]. rewrite IH.
  - rewrite getpixel_paste. rewrite decide_False; [done|].
    intros [_ Hin]. apply (Hout 0%nat f); [done|].
    by rewrite Nat.add_0_r.
  - intros j f' Hj. specialize (Hout (S j) f' Hj).
    by replace (S idx + j)%nat with (idx + S j)%nat by lia.
Qed.

Lemma paste_cells_last_wins frame_w frame_h cols idx frames atlas k f a b :
  frames !! k = Some f →
  in_bounds (image_size atlas) a b →
  pasted_over frame_w frame_h cols (idx + k) f a b →
  (∀ j f', (k < j)%nat → frames !! j = Some f' →
           ¬ pasted_over frame_w frame_h cols (idx + j) f' a b) →
  image_getpixel (paste_cells frame_w frame_h cols idx frames atlas) a b =
    image_getpixel f (a - (Z.of_nat (idx + k) `mod` cols) * frame_w)
                     (b - (Z.of_nat (idx + k) `div` cols) * frame_h).
Proof.
  revert idx atlas k.
  induction frames as [|f0 rest IH]; intros idx atlas k Hk Hb Hin Hlater; [done|].
  cbn [paste_cells]. destruct k as [|k]; cbn in Hk.
  - injection Hk as ->. rewrite Nat.add_0_r in *.
    rewrite paste_cells_later_miss.
    + rewrite getpixel_paste. by rewrite decide_True.
    + intros j f' Hj.
      replace (S idx + j)%nat with (idx + S j)%nat by lia.
      apply (Hlater (S j) f'); [lia|done].
  - replace (idx + S k)%nat with (S idx + k)%nat in * by lia.
    apply IH; [done|by rewrite size_paste|done|].
    intros j f' Hlt Hj.
    replace (S idx + j)%nat with (idx + S j)%nat by lia.
    apply (Hlater (S j) f'); [lia|done].
Qed.




End AtlasPixels.

(** ** The claims about [main] *)

Section MainClaims.
Context {L : ImageLib}.

(** C4, as amended: the two loops of [main] return exactly when each crop
    returns, and raise [ValueError] at the first crop when [--frame-width]
    or [--frame-height] is negative.  Whenever they return, [name_order] and
    [images] have equal length, with [name_order[k]] the label of
    [images[k]]: in the fixed direction order front, back, left, right,
    first the four static poses named [{id}-{direction}], then for each
    direction the walk frames named [{id}-{direction}-walk-{i:04d}], [i]
    counted from 0 and padded with zeros to four digits. *)
Theorem collect_frames_labelled `{!ImageLaws L} (a : args.t) (sheet : Image) :
  ((args.frame_width a < 0 ∨ args.frame_height a < 0) →
     collect_frames a sheet = Raise ValueError) ∧
  ((∀ nb, nb ∈ labelled_boxes a → ∃ img, image_crop sheet nb.2 = Ok img) →
     ∃ names images, collect_frames a sheet = Ok (names, images)) ∧
  (∀ names images,
     collect_frames a sheet = Ok (names, images) →
     length names = length images ∧
     Forall2 (fun nb ni => ni.1 = nb.1 ∧ image_crop sheet nb.2 = Ok ni.2)
             (labelled_boxes a) (zip names images)) ∧
  fmt_04d 0 = "0000"%string ∧
  ∀ i, (4 ≤ String.length (fmt_04d i))%nat ∧ read_decimal (fmt_04d i) = Some i.
Proof.
  split; [apply collect_frames_negative|].
  split; [|split; [|split; [done|]]].
  - intros Hall.
    destruct (result_map_returns (image_crop sheet) (collected_boxes a))
      as [images Himages].
    { intros box Hbox. apply list_elem_of_lookup in Hbox as [k Hk].
      destruct (lookup_lt_is_Some_2 (collected_names a) k) as [name Hname].
      { destruct (collected_lengths a) as [-> Hlen].
        rewrite <- Hlen. by eapply lookup_lt_Some. }
      apply (Hall (name, box)). rewrite labelled_boxes_zip.
      apply list_elem_of_lookup. exists k. by apply lookup_zip_Some. }
    exists (collected_names a), images.
    apply collect_frames_Ok. split; [done|]. by apply result_map_Ok.
  - intros names images Hcollect.
    apply collect_frames_Ok in Hcollect as [-> Hcrops]. split.
    + rewrite (crops_length _ _ _ Hcrops). by destruct (collected_lengths a).
    + rewrite labelled_boxes_zip.
      by apply (zip_Forall2_snd (fun box img => image_crop sheet box = Ok img)).
  - intros i. split; [apply fmt_04d_length|apply read_decimal_fmt_04d].
Qed.

(** C5: given the frames extracted for one direction, if
    [args.walk_frames == 9] and there are 8 of them, the last one is
    appended again, so that the direction has 9 frames, the 9th identical to
    the 8th and named with index [0008]; in every other case the frames are
    emitted as extracted, neither padded nor truncated. *)
Theorem reconcile_eight_to_nine (a : args.t) (dir_key : string)
    (frames : list Image) (st : Collected) :
  (args.walk_frames a = 9 → length frames = 8%nat →
     ∃ f8, frames !! 7%nat = Some f8 ∧
       reconcile_and_emit a dir_key frames st =
         Ok (st.1 ++ (walk_name a dir_key <$> seq 0 9), st.2 ++ frames ++ [f8]) ∧
       walk_name a dir_key 8 = args.id a +:+ "-" +:+ dir_key +:+ "-walk-0008") ∧
  (¬ (args.walk_frames a = 9 ∧ length frames = 8%nat) →
     reconcile_and_emit a dir_key frames st =
       Ok (st.1 ++ (walk_name a dir_key <$> seq 0 (length frames)),
           st.2 ++ frames)).
Proof.
  split.
  - intros Hwf Hlen.
    do 9 (destruct frames as [|? frames]; try done).
    eexists. split; [reflexivity|]. split; [|done].
    unfold reconcile_and_emit, pad_walk.
    rewrite decide_True by (split; [done|by cbn]). cbn.
    by rewrite <- !app_assoc.
  - intros Hno. unfold reconcile_and_emit, pad_walk.
    rewrite decide_False by (intros [? ?]; apply Hno; split; [done|lia]). cbn.
    by rewrite emit_walk_spec.
Qed.

(** C8: in every run the emitted frame names are pairwise distinct, and the
    [frames] mapping of the manifest of a run that returns has exactly one
    entry per frame, under the name of that frame, with the keys in
    extraction order.  A run with [--atlas-cols 0] raises and leaves no
    manifest. *)
Theorem names_distinct_manifest_keys (a : args.t) (sheet : Image) :
  (∀ names images,
     collect_frames a sheet = Ok (names, images) →
     NoDup names ∧ length names = length images) ∧
  (args.atlas_cols a = 0 → ∃ e, main a sheet = Raise e) ∧
  (∀ atlas doc,
     main a sheet = Ok (atlas, doc) →
     ∃ names images,
       collect_frames a sheet = Ok (names, images) ∧
       dict_keys (json.frames doc) = names ∧
       length (json.frames doc) = length images ∧
       ∀ k name, names !! k = Some name →
         ∃ e, json.frames doc !! k = Some (name, e) ∧
              dict_get (json.frames doc) name = Some e).
Proof.
  split; [|split].
  - intros names images Hcollect.
    apply collect_frames_Ok in Hcollect as [-> Hcrops].
    split; [apply collected_names_NoDup|].
    rewrite (crops_length _ _ _ Hcrops). by destruct (collected_lengths a).
  - intros Hc. rewrite main_eq, Hc.
    destruct (result_map _ _) as [images|e]; cbn; [|by eexists].
    rewrite paste_frames_to_atlas_zero. by eexists.
  - intros atlas doc Hmain.
    apply main_inv in Hmain as (images & rects & Hcrops & Hpack & Hrects & ->).
    exists (collected_names a), images.
    split; [by apply collect_frames_Ok|]. cbn [json.frames].
    assert (length rects = length (collected_names a)) as Hlen.
    { rewrite Hrects, length_fmap, length_seq, (crops_length _ _ _ Hcrops).
      by destruct (collected_lengths a) as [-> _]. }
    split; [by apply manifest_keys|]. split.
    + rewrite length_zip, length_fmap, Hlen, (crops_length _ _ _ Hcrops).
      destruct (collected_lengths a) as [-> _]. lia.
    + intros k name Hk.
      destruct (lookup_lt_is_Some_2 (json_entry <$> rects) k) as [e He].
      { rewrite length_fmap, Hlen. by eapply lookup_lt_Some. }
      exists e.
      assert (zip (collected_names a) (json_entry <$> rects) !! k
              = Some (name, e)) as Hz by by apply lookup_zip_Some.
      split; [done|].
      eapply dict_get_lookup; [|done].
      rewrite manifest_keys by done. apply collected_names_NoDup.
Qed.

(** C10, as amended: the padding branch is unreachable.  [slice_frames],
    whenever it returns, returns exactly [max(count, 0)] frames, so
    [args.walk_frames == 9 and len(frames) == 8] never holds and the
    duplicate-last-frame branch is never executed; every direction whose
    crops return contributes exactly [max(walk_frames, 0)] walk entries, and
    every run whose crops return collects [4 + 4 * max(walk_frames, 0)]
    frames. *)
Theorem padding_branch_unreachable (a : args.t) (sheet : Image) :
  (∀ row frames,
     slice_frames sheet (args.frame_width a) (args.frame_height a)
       row (args.start_col a) (args.walk_frames a) = Ok frames →
     Z.of_nat (length frames) = Z.max (args.walk_frames a) 0 ∧
     ¬ (args.walk_frames a = 9 ∧ Z.of_nat (length frames) = 8) ∧
     pad_walk a frames = Ok frames) ∧
  (∀ (st st' : Collected) dir_key row,
     walk_step a sheet st (dir_key, row) = Ok st' →
     Z.of_nat (length st'.1) = Z.of_nat (length st.1) + Z.max (args.walk_frames a) 0 ∧
     Z.of_nat (length st'.2) = Z.of_nat (length st.2) + Z.max (args.walk_frames a) 0) ∧
  (∀ names images,
     collect_frames a sheet = Ok (names, images) →
     Z.of_nat (length names) = 4 + 4 * Z.max (args.walk_frames a) 0 ∧
     Z.of_nat (length images) = 4 + 4 * Z.max (args.walk_frames a) 0).
Proof.
  split; [|split].
  - intros row frames Hs. apply slice_frames_length in Hs.
    fold (walk_count a) in Hs. split; [|split].
    + rewrite Hs. unfold walk_count. lia.
    + by apply pad_guard_false.
    + unfold pad_walk. by rewrite decide_False by by apply pad_guard_false.
  - intros st st' dir_key row Hstep. rewrite walk_step_eq in Hstep.
    destruct (result_map _ _) as [frames|e] eqn:Hmap; cbn in Hstep; [|done].
    injection Hstep as <-. cbn.
    apply result_map_Ok, Forall2_length in Hmap.
    rewrite walk_boxes_length in Hmap.
    rewrite !length_app, length_fmap, length_seq, <- Hmap.
    unfold walk_count. lia.
  - intros names images Hcollect.
    apply collect_frames_Ok in Hcollect as [-> Hcrops].
    rewrite (crops_length _ _ _ Hcrops).
    destruct (collected_lengths a) as [-> _]. unfold walk_count. lia.
Qed.


End MainClaims.

(** * Part V: further properties of the code *)

(** ** [slice_frames] *)

Section SlicerExtras.
Context {L : ImageLib}.

(** A run of [c1 + c2] frames is the run of [c1] frames followed by the run
    of [c2] frames that starts [c1] columns further right, crop for crop and
    with the same exception when a crop raises. *)
Theorem slice_frames_app
    (sheet : Image) (frame_w frame_h row start_col c1 c2 : Z) :
  0 ≤ c1 → 0 ≤ c2 →
  slice_frames sheet frame_w frame_h row start_col (c1 + c2) =
    (l1 ← slice_frames sheet frame_w frame_h row start_col c1;
     l2 ← slice_frames sheet frame_w frame_h row (start_col + c1) c2;
     mret (l1 ++ l2)).
Proof.
  intros H1 H2. rewrite !slice_frames_eq.
  assert (run_boxes frame_w frame_h row start_col (c1 + c2) =
          run_boxes frame_w frame_h row start_col c1
          ++ run_boxes frame_w frame_h row (start_col + c1) c2) as ->.
  { unfold run_boxes. rewrite seqZ_app by done. rewrite fmap_app. f_equal.
    replace (0 + c1) with (c1 + 0) by lia.
    rewrite <- (fmap_add_seqZ c1 0 c2), <- list_fmap_compose.
    apply list_fmap_ext. intros _ i _. cbn. by rewrite Z.add_assoc. }
  apply result_map_app.
Qed.

End SlicerExtras.

(** ** [paste_frames_to_atlas] *)

Section PackerExtras.
Context {L : ImageLib} `{!ImageLaws L}.

(** With [1 <= columns < 2^53], fewer than [2^53] frames and a frame size
    that is not negative, every rect returned lies inside the atlas: no cell
    is clipped. *)
Theorem rects_within_atlas
    (frames : list Image) (frame_w frame_h cols : Z)
    (atlas : Image) (rects : list Rect) (i : nat) (x y w h : Z) :
  1 ≤ cols < 2 ^ 53 → Z.of_nat (length frames) < 2 ^ 53 →
  0 ≤ frame_w → 0 ≤ frame_h →
  paste_frames_to_atlas frames frame_w frame_h cols = Ok (atlas, rects) →
  rects !! i = Some (x, y, w, h) →
  0 ≤ x ∧ x + w ≤ (image_size atlas).1 ∧ 0 ≤ y ∧ y + h ≤ (image_size atlas).2.
Proof.
  intros Hc Hn Hw Hh Hpack Hi.
  apply paste_frames_to_atlas_inv in Hpack
    as (_ & rows & atlas0 & Hrows & Hnew & -> & ->).
  rewrite py_ceil_truediv_exact in Hrows by lia. injection Hrows as <-.
  rewrite paste_cells_size, (size_new _ _ _ Hnew). cbn [fst snd].
  fold (ceil_div (Z.of_nat (length frames)) cols).
  rewrite list_lookup_fmap in Hi.
  destruct (seq 0 (length frames) !! i) as [i'|] eqn:Ei; [|done].
  apply lookup_seq in Ei as [-> Hlt]. cbn in Hi. injection Hi as <- <- <- <-.
  pose proof (Z.mod_pos_bound (Z.of_nat i) cols ltac:(lia)) as Hm.
  pose proof (ceil_div_spec (Z.of_nat (length frames)) cols ltac:(lia)) as [_ Hceil].
  assert (0 ≤ Z.of_nat i `div` cols) as Hd0 by (apply Z.div_pos; lia).
  assert (Z.of_nat i `div` cols < ceil_div (Z.of_nat (length frames)) cols)
    as Hd1 by (apply Z.div_lt_upper_bound; lia).
  revert Hm Hd0 Hd1.
  generalize (Z.of_nat i `mod` cols) (Z.of_nat i `div` cols)
             (ceil_div (Z.of_nat (length frames)) cols).
  intros c r rows Hm Hd0 Hd1.
  assert ((c + 1) * frame_w ≤ cols * frame_w)
    by (apply Z.mul_le_mono_nonneg_r; lia).
  assert ((r + 1) * frame_h ≤ rows * frame_h)
    by (apply Z.mul_le_mono_nonneg_r; lia).
  pose proof (Z.mul_nonneg_nonneg c frame_w).
  pose proof (Z.mul_nonneg_nonneg r frame_h).
  lia.
Qed.

(** Frames appended to the list do not move the frames before them: the
    rects of the longer list start with the rects of the shorter one. *)
Theorem rects_prefix_stable
    (frames more : list Image) (frame_w frame_h cols : Z)
    (atlas atlas' : Image) (rects rects' : list Rect) :
  1 ≤ cols →
  paste_frames_to_atlas frames frame_w frame_h cols = Ok (atlas, rects) →
  paste_frames_to_atlas (frames ++ more) frame_w frame_h cols = Ok (atlas', rects') →
  take (length frames) rects' = rects ∧
  length rects' = (length frames + length more)%nat.
Proof.
  intros Hc Hpack Hpack'.
  apply paste_frames_to_atlas_inv in Hpack as (_ & _ & _ & _ & _ & _ & ->).
  apply paste_frames_to_atlas_inv in Hpack' as (_ & _ & _ & _ & _ & _ & ->).
  rewrite length_app, seq_app, fmap_app. split.
  - rewrite take_app_length'; [done|]. by rewrite length_fmap, length_seq.
  - rewrite length_app, !length_fmap, !length_seq. done.
Qed.

(** The frames are pasted in list order, each over a box of its own size,
    whatever [frame_w] and [frame_h] are: a pixel of the atlas that frame
    [k] writes, and no later frame writes, holds the pixel of frame [k]. *)
Theorem paste_last_frame_wins
    (frames : list Image) (frame_w frame_h cols : Z)
    (atlas : Image) (rects : list Rect) (k : nat) (f : Image) (a b : Z) :
  1 ≤ cols →
  paste_frames_to_atlas frames frame_w frame_h cols = Ok (atlas, rects) →
  frames !! k = Some f →
  in_bounds (image_size atlas) a b →
  pasted_over frame_w frame_h cols k f a b →
  (∀ j f', (k < j)%nat → frames !! j = Some f' →
           ¬ pasted_over frame_w frame_h cols j f' a b) →
  image_getpixel atlas a b =
    image_getpixel f (a - (Z.of_nat k `mod` cols) * frame_w)
                     (b - (Z.of_nat k `div` cols) * frame_h).
Proof.
  intros Hc Hpack Hk Hb Hin Hlater.
  apply paste_frames_to_atlas_inv in Hpack as (_ & _ & atlas0 & _ & _ & -> & _).
  rewrite paste_cells_size in Hb.
  by rewrite (paste_cells_last_wins frame_w frame_h cols 0 _ _ k f).
Qed.


(** The cells no frame is pasted into stay as [Image.new] made them: with
    cell-sized frames, a pixel of the atlas that lies in none of the
    returned rects is fully transparent. *)
Theorem atlas_gaps_transparent `{!ImageNewLaw L}
    (frames : list Image) (frame_w frame_h cols : Z)
    (atlas : Image) (rects : list Rect) (a b : Z) :
  1 ≤ cols →
  cell_sized frame_w frame_h frames →
  paste_frames_to_atlas frames frame_w frame_h cols = Ok (atlas, rects) →
  in_bounds (image_size atlas) a b →
  (∀ r, r ∈ rects → ¬ rect_contains r a b) →
  image_getpixel atlas a b = Some (0, 0, 0, 0).
Proof.
  intros Hc Hsz Hpack Hb Hout.
  apply paste_frames_to_atlas_inv in Hpack
    as (_ & rows & atlas0 & _ & Hnew & -> & ->).
  rewrite paste_cells_size, (size_new _ _ _ Hnew) in Hb.
  rewrite paste_cells_untouched; [by eapply getpixel_new|done|].
  intros k Hk. apply Hout. apply list_elem_of_fmap. exists k.
  split; [done|]. apply elem_of_seq. lia.
Qed.

End PackerExtras.

(** ** [main] *)

Section MainExtras.
Context {L : ImageLib}.

(** Every entry of the manifest of a run that returns, with
    [--atlas-cols >= 1], has the frame size as [w] and [h] of its rect, is
    neither rotated nor trimmed, and has a [spriteSourceSize] at the origin
    and a [sourceSize] of the frame size; the rect starts at a multiple of
    the frame size, and [meta.image] is [atlas.png] whatever [--out] is. *)
Theorem manifest_entries_shape
    (a : args.t) (sheet : Image) (atlas : Image) (doc : json.document) :
  1 ≤ args.atlas_cols a →
  main a sheet = Ok (atlas, doc) →
  json.meta_image doc = "atlas.png"%string ∧
  ∀ name e, dict_get (json.frames doc) name = Some e →
    json.w (json.frame e) = args.frame_width a ∧
    json.h (json.frame e) = args.frame_height a ∧
    (∃ cx cy, 0 ≤ cx < args.atlas_cols a ∧ 0 ≤ cy ∧
              json.x (json.frame e) = cx * args.frame_width a ∧
              json.y (json.frame e) = cy * args.frame_height a) ∧
    json.rotated e = false ∧
    json.trimmed e = false ∧
    json.spriteSourceSize e =
      {| json.x := 0; json.y := 0;
         json.w := args.frame_width a; json.h := args.frame_height a |} ∧
    json.sourceSize e =
      {| json.size_w := args.frame_width a; json.size_h := args.frame_height a |}.
Proof.
  intros Hc Hmain.
  apply main_inv in Hmain as (images & rects & _ & _ & -> & ->).
  split; [done|]. cbn [json.frames]. intros name e Hget.
  apply dict_get_elem, list_elem_of_lookup in Hget as [i Hi].
  apply lookup_zip_Some in Hi as [_ Hi].
  rewrite !list_lookup_fmap in Hi.
  destruct (seq 0 _ !! i) as [k|]; [|done]. cbn in Hi. injection Hi as <-.
  cbn. repeat split; try done.
  exists (Z.of_nat k `mod` args.atlas_cols a), (Z.of_nat k `div` args.atlas_cols a).
  pose proof (Z.mod_pos_bound (Z.of_nat k) (args.atlas_cols a) ltac:(lia)).
  assert (0 ≤ Z.of_nat k `div` args.atlas_cols a) by (apply Z.div_pos; lia).
  done.
Qed.

(** The size of the atlas of a run that returns, with
    [1 <= atlas_cols < 2^53] and fewer than [2^50] walk frames per
    direction, depends on the arguments alone, not on the sheet: it is
    [atlas_cols * frame_width] wide and [rows * frame_height] high, with
    [rows] the ceiling of [(4 + 4 * max(walk_frames, 0)) / atlas_cols]. *)
Theorem main_atlas_size `{!ImageLaws L}
    (a : args.t) (sheet : Image) (atlas : Image) (doc : json.document) :
  1 ≤ args.atlas_cols a < 2 ^ 53 →
  args.walk_frames a < 2 ^ 50 →
  main a sheet = Ok (atlas, doc) →
  ∃ rows,
    args.atlas_cols a * (rows - 1) < 4 + 4 * Z.max (args.walk_frames a) 0
      ≤ args.atlas_cols a * rows ∧
    image_size atlas = (args.atlas_cols a * args.frame_width a,
                        rows * args.frame_height a).
Proof.
  intros Hc Hwf Hmain.
  apply main_inv in Hmain as (images & rects & Hcrops & Hpack & _ & _).
  pose proof (crops_length _ _ _ Hcrops) as Hlen.
  assert (Z.of_nat (length images) = 4 + 4 * Z.max (args.walk_frames a) 0) as Hn
    by (rewrite Hlen; unfold walk_count; lia).
  apply paste_frames_to_atlas_inv in Hpack
    as (_ & rows & atlas0 & Hrows & Hnew & -> & _).
  assert (2 ^ 53 = 8 * 2 ^ 50) as Hpow by done.
  rewrite py_ceil_truediv_exact in Hrows by lia. injection Hrows as <-.
  exists (ceil_div (Z.of_nat (length images)) (args.atlas_cols a)). split.
  - rewrite <- Hn. apply ceil_div_spec. lia.
  - by rewrite paste_cells_size, (size_new _ _ _ Hnew).
Qed.

(** When [--static-col] equals [--start-col] (as with the defaults) and at
    least one walk frame is asked for, in a run whose crops return the
    static pose of every direction is the same crop as the first walk frame
    of that direction: the atlas holds it twice, under two names. *)
Theorem static_pose_is_first_walk_frame
    (a : args.t) (sheet : Image) (names : list string) (images : list Image) :
  args.static_col a = args.start_col a →
  1 ≤ args.walk_frames a →
  collect_frames a sheet = Ok (names, images) →
  ∀ d, (d < 4)%nat →
    ∃ img, images !! d = Some img ∧
           images !! (4 + d * Z.to_nat (args.walk_frames a))%nat = Some img ∧
           names !! d ≠ names !! (4 + d * Z.to_nat (args.walk_frames a))%nat.
Proof.
  intros Hcol Hwf Hcollect d Hd.
  apply collect_frames_Ok in Hcollect as [-> Hcrops].
  fold (walk_count a).
  assert (∃ n, walk_count a = S n) as [n Hn].
  { exists (Z.to_nat (args.walk_frames a - 1)). unfold walk_count. lia. }
  assert (∀ row, static_box a row =
            cell_box (args.frame_width a) (args.frame_height a) row
              (args.start_col a + Z.of_nat 0)) as Hsame.
  { intros row. unfold static_box. by rewrite Hcol, Z.add_0_r. }
  assert (∀ row pre post m,
            length pre = m →
            (pre ++ walk_boxes a row ++ post) !! m = Some (static_box a row))
    as Hblock.
  { intros row pre post m <-. rewrite lookup_app_r by lia.
    rewrite Nat.sub_diag, walk_boxes_seq, Hn, Hsame. done. }
  assert (∃ box, collected_boxes a !! d = Some box ∧
                 collected_boxes a !! (4 + d * walk_count a)%nat = Some box)
    as (box & Hb1 & Hb2).
  { unfold collected_boxes.
    destruct d as [|[|[|[|d]]]]; [| | | |lia]; eexists; (split; [reflexivity|]).
    - by apply Hblock.
    - rewrite !app_assoc. do 2 rewrite <- app_assoc.
      apply Hblock. rewrite length_app, walk_boxes_length. cbn. lia.
    - rewrite !app_assoc. rewrite <- app_assoc.
      apply Hblock. rewrite !length_app, !walk_boxes_length. cbn. lia.
    - rewrite !app_assoc.
      rewrite <- (app_nil_r (walk_boxes a (args.right_row a))).
      apply Hblock. rewrite !length_app, !walk_boxes_length. cbn. lia. }
  destruct (Forall2_lookup_l _ _ _ _ _ Hcrops Hb1) as (img & Hi1 & Hc1).
  destruct (Forall2_lookup_l _ _ _ _ _ Hcrops Hb2) as (img' & Hi2 & Hc2).
  assert (img' = img) as -> by congruence.
  exists img. split; [done|]. split; [done|].
  destruct (collected_names a !! d) as [nd|] eqn:End.
  - intros Heq. symmetry in Heq.
    pose proof (NoDup_lookup _ _ _ _ (collected_names_NoDup a) End Heq). lia.
  - apply lookup_ge_None in End. destruct (collected_lengths a) as [Hlen _]. lia.
Qed.

(** [--image], [--cols] and [--out] have no effect on the atlas and the
    manifest computed from a sheet: [--cols], documented as the number of
    columns of the sheet, is never read, and no crop is checked against it. *)
Theorem main_ignores_sheet_columns (a a' : args.t) (sheet : Image) :
  args.id a = args.id a' →
  args.frame_width a = args.frame_width a' →
  args.frame_height a = args.frame_height a' →
  args.start_col a = args.start_col a' →
  args.walk_frames a = args.walk_frames a' →
  args.front_row a = args.front_row a' →
  args.left_row a = args.left_row a' →
  args.right_row a = args.right_row a' →
  args.back_row a = args.back_row a' →
  args.static_col a = args.static_col a' →
  args.atlas_cols a = args.atlas_cols a' →
  main a sheet = main a' sheet.
Proof.
  intros Hid Hfw Hfh Hsc Hwf Hfr Hlr Hrr Hbr Hst Hac.
  assert (collected_names a = collected_names a') as Hnames.
  { unfold collected_names, static_name, walk_name, walk_count.
    by rewrite Hid, Hwf. }
  assert (collected_boxes a = collected_boxes a') as Hboxes.
  { unfold collected_boxes, static_box, walk_boxes.
    by rewrite Hfw, Hfh, Hsc, Hwf, Hfr, Hlr, Hrr, Hbr, Hst. }
  rewrite !main_eq. by rewrite Hnames, Hboxes, Hfw, Hfh, Hac.
Qed.

End MainExtras.

(** * Part VI: the properties on sample runs *)

(** ** The claims *)

Lemma sample_frames_cell_sized : cell_sized 2 2 sample_frames.
Proof. repeat constructor. Defined.

Lemma sample_run_returns :
  ∃ (atlas : Grid) doc, main sample_args sample_sheet = Ok (atlas, doc).
Proof. do 2 eexists. reflexivity. Defined.

Lemma sample_collect_returns :
  ∃ names (images : list Grid),
    collect_frames sample_args sample_sheet = Ok (names, images).
Proof. do 2 eexists. reflexivity. Defined.

Lemma disjoint_sample : rects_disjoint (0, 0, 2, 2) (0, 2, 2, 2).
Proof.
  eapply (paste_frames_to_atlas_disjoint (L:=grid_lib) sample_frames 2 2 2 _ _ 0 2).
  - lia.
  - reflexivity.
  - lia.
  - reflexivity.
  - reflexivity.
Defined.


Lemma slice_frames_sample :
  slice_frames sample_sheet (-2) 2 1 3 3 = Raise ValueError ∧
  ∃ frames : list Grid,
    slice_frames sample_sheet 2 2 1 3 3 = Ok frames ∧
    Z.of_nat (length frames) = 3 ∧
    ∀ i, 0 ≤ i < 3 →
      0 ≤ 2 ∧ 0 ≤ 2 ∧
      ∃ f, frames !! Z.to_nat i = Some f ∧
           image_crop sample_sheet
             ((3 + i) * 2, 1 * 2, (3 + i) * 2 + 2, 1 * 2 + 2) = Ok f ∧
           image_size f = (2, 2) ∧
           ∀ u v, 0 ≤ u < 2 → 0 ≤ v < 2 →
             in_bounds (image_size sample_sheet) ((3 + i) * 2 + u) (1 * 2 + v) →
             image_getpixel f u v =
               image_getpixel sample_sheet ((3 + i) * 2 + u) (1 * 2 + v).
Proof.
  split.
  - apply (slice_frames_count_and_crops (L:=grid_lib) sample_sheet (-2) 2 1 3 3);
      lia.
  - destruct (slice_frames_count_and_crops (L:=grid_lib) sample_sheet 2 2 1 3 3)
      as (_ & Hret & Hok); [lia|].
    destruct Hret as [frames Hframes].
    { intros i Hi. eexists. cbn [image_crop grid_lib]. unfold grid_crop, c_int_max.
      rewrite !decide_False by lia. reflexivity. }
    exists frames. split; [exact Hframes|]. apply Hok. exact Hframes.
Defined.

Lemma collect_frames_sample :
  collect_frames negative_width_args sample_sheet = Raise ValueError ∧
  ∃ names (images : list Grid),
    collect_frames sample_args sample_sheet = Ok (names, images) ∧
    length names = length images ∧
    Forall2 (fun nb ni => ni.1 = nb.1 ∧ image_crop sample_sheet nb.2 = Ok ni.2)
            (labelled_boxes sample_args) (zip names images).
Proof.
  split.
  - apply (collect_frames_labelled (L:=grid_lib) negative_width_args sample_sheet).
    left. cbn. lia.
  - destruct (collect_frames_labelled (L:=grid_lib) sample_args sample_sheet)
      as (_ & _ & Hok & _).
    destruct sample_collect_returns as (names & images & Hrun).
    exists names, images. split; [exact Hrun|]. apply Hok. exact Hrun.
Defined.

Lemma reconcile_sample :
  (∃ f8, eight_frames !! 7%nat = Some f8 ∧
     reconcile_and_emit sample_args "front" eight_frames ([], []) =
       Ok ([] ++ (walk_name sample_args "front" <$> seq 0 9),
           [] ++ eight_frames ++ [f8]) ∧
     walk_name sample_args "front" 8 = "hero-front-walk-0008"%string) ∧
  reconcile_and_emit sample_args "front" sample_frames ([], []) =
    Ok ([] ++ (walk_name sample_args "front" <$> seq 0 (length sample_frames)),
        [] ++ sample_frames).
Proof.
  split.
  - apply (proj1 (reconcile_eight_to_nine (L:=grid_lib) sample_args "front"
                    eight_frames ([], []))); reflexivity.
  - apply (proj2 (reconcile_eight_to_nine (L:=grid_lib) sample_args "front"
                    sample_frames ([], []))).
    intros [_ Hlen]. vm_compute in Hlen. discriminate Hlen.
Defined.


Lemma empty_atlas_sample :
  py_ceil_truediv (Z.of_nat (length (@nil Grid))) 10 = Ok 0 ∧
  paste_frames_to_atlas (L:=grid_lib) [] (-2) 2 10 = Raise ValueError ∧
  ∃ atlas : Grid, paste_frames_to_atlas [] 2 2 10 = Ok (atlas, []) ∧
                  image_size atlas = (10 * 2, 0).
Proof.
  destruct (paste_frames_to_atlas_empty (L:=grid_lib) 2 2 10)
    as (Hrows & _ & _ & Hok); [lia|].
  split; [exact Hrows|]. split.
  - destruct (paste_frames_to_atlas_empty (L:=grid_lib) (-2) 2 10)
      as (_ & Hneg & _); [lia|].
    apply Hneg. lia.
  - eexists. apply Hok. reflexivity.
Defined.

Lemma names_sample :
  ∃ (atlas : Grid) doc names images,
    main sample_args sample_sheet = Ok (atlas, doc) ∧
    collect_frames sample_args sample_sheet = Ok (names, images) ∧
    NoDup names ∧
    dict_keys (json.frames doc) = names ∧
    length (json.frames doc) = length images.
Proof.
  destruct sample_run_returns as (atlas & doc & Hrun).
  destruct (names_distinct_manifest_keys (L:=grid_lib) sample_args sample_sheet)
    as (Hnd & _ & Hmain).
  destruct (Hmain atlas doc Hrun) as (names & images & Hc & Hk & Hl & _).
  exists atlas, doc, names, images.
  split; [exact Hrun|]. split; [exact Hc|].
  split; [apply (Hnd names images Hc)|]. split; [exact Hk|exact Hl].
Defined.

Lemma zero_cols_sample :
  paste_frames_to_atlas sample_frames 2 2 0 = Raise ZeroDivisionError ∧
  (paste_frames_to_atlas sample_frames 2 2 (-3) = Raise ValueError ∨
   paste_frames_to_atlas sample_frames 2 2 (-3) = Raise OverflowError).
Proof.
  split.
  - apply (proj1 (paste_frames_to_atlas_zero_cols (L:=grid_lib) sample_frames 2 2 0)).
    reflexivity.
  - apply (proj2 (paste_frames_to_atlas_zero_cols (L:=grid_lib) sample_frames 2 2 (-3)));
      lia.
Defined.

Lemma unreachable_sample :
  ∃ names (images : list Grid),
    collect_frames sample_args sample_sheet = Ok (names, images) ∧
    Z.of_nat (length names) = 4 + 4 * Z.max 9 0 ∧
    Z.of_nat (length images) = 4 + 4 * Z.max 9 0.
Proof.
  destruct (padding_branch_unreachable (L:=grid_lib) sample_args sample_sheet)
    as (_ & _ & Hok).
  destruct sample_collect_returns as (names & images & Hrun).
  exists names, images. split; [exact Hrun|]. apply Hok. exact Hrun.
Defined.

(** ** Where the claims fail as stated *)

(** C3 fails as stated: with [frame_w = -2] and [count = 2] the first crop is
    asked for a box whose right edge is left of its left edge, and
    [slice_frames] raises [ValueError] instead of returning 2 frames. *)
Lemma slice_frames_negative_width :
  0 ≤ 2 ∧
  slice_frames (L:=grid_lib) sample_sheet (-2) 2 1 3 2 = Raise ValueError.
Proof. split; [lia|reflexivity]. Qed.

(** C4 fails as stated: with [--frame-width -2] the loops of [main] raise
    [ValueError] at the first crop and build no list. *)
Lemma collect_frames_negative_width :
  collect_frames (L:=grid_lib) negative_width_args sample_sheet = Raise ValueError.
Proof. reflexivity. Qed.


(** C7 fails as stated: for the empty frame list, 10 columns and
    [frame_w = -2], [Image.new] is asked for the width [-20] and the call
    raises [ValueError]. *)
Lemma empty_atlas_negative_width :
  1 ≤ 10 ∧
  paste_frames_to_atlas (L:=grid_lib) [] (-2) 2 10 = Raise ValueError.
Proof. split; [lia|reflexivity]. Qed.

(** C10 fails as stated.  With [--walk-frames -1] [slice_frames] returns no
    frame, every direction contributes no walk entry and the run collects 4
    frames, where [4 + 4 * walk_frames] is 0.  With [--frame-width -2] and 9
    walk frames [slice_frames] returns no list at all, and neither do the
    loops of [main]. *)
Lemma walk_frames_total_fails :
  (slice_frames (L:=grid_lib) sample_sheet 2 2 2 0
     (args.walk_frames negative_walk_args) = Ok [] ∧
   ∃ names (images : list Grid),
     collect_frames negative_walk_args sample_sheet = Ok (names, images) ∧
     Z.of_nat (length images) = 4 ∧
     4 + 4 * args.walk_frames negative_walk_args = 0 ∧
     Z.of_nat (length images) ≠ 4 + 4 * args.walk_frames negative_walk_args) ∧
  (slice_frames (L:=grid_lib) sample_sheet (-2) 2 2 0
     (args.walk_frames negative_width_args) = Raise ValueError ∧
   collect_frames (L:=grid_lib) negative_width_args sample_sheet
     = Raise ValueError).
Proof.
  split.
  - split; [reflexivity|]. do 2 eexists. split; [reflexivity|]. done.
  - split; reflexivity.
Qed.

(** ** The further properties *)

Lemma slice_frames_app_sample :
  slice_frames sample_sheet 2 2 1 0 (2 + 3) =
    (l1 ← slice_frames sample_sheet 2 2 1 0 2;
     l2 ← slice_frames sample_sheet 2 2 1 (0 + 2) 3;
     mret (l1 ++ l2)).
Proof.
  apply (slice_frames_app (L:=grid_lib) sample_sheet 2 2 1 0 2 3); lia.
Defined.

Lemma rects_within_atlas_sample :
  ∃ (atlas : Grid) rects,
    paste_frames_to_atlas sample_frames 2 2 2 = Ok (atlas, rects) ∧
    rects !! 2%nat = Some (0, 2, 2, 2) ∧
    (0 ≤ 0 ∧ 0 + 2 ≤ (image_size atlas).1 ∧ 0 ≤ 2 ∧ 2 + 2 ≤ (image_size atlas).2).
Proof.
  do 2 eexists. split; [reflexivity|]. split; [reflexivity|].
  eapply (rects_within_atlas (L:=grid_lib) sample_frames 2 2 2 _ _ 2).
  - cbn. lia.
  - vm_compute. reflexivity.
  - lia.
  - lia.
  - reflexivity.
  - reflexivity.
Defined.

Lemma rects_prefix_stable_sample :
  ∃ (atlas atlas' : Grid) rects rects',
    paste_frames_to_atlas sample_frames 2 2 2 = Ok (atlas, rects) ∧
    paste_frames_to_atlas (sample_frames ++ eight_frames) 2 2 2 = Ok (atlas', rects') ∧
    take (length sample_frames) rects' = rects ∧
    length rects' = (length sample_frames + length eight_frames)%nat.
Proof.
  do 4 eexists. split; [reflexivity|]. split; [reflexivity|].
  eapply (rects_prefix_stable (L:=grid_lib) sample_frames eight_frames 2 2 2).
  - lia.
  - reflexivity.
  - reflexivity.
Defined.

Lemma paste_last_frame_wins_sample :
  ∃ (atlas : Grid) rects f0 f1,
    paste_frames_to_atlas wide_frames 2 2 2 = Ok (atlas, rects) ∧
    wide_frames !! 0%nat = Some f0 ∧ wide_frames !! 1%nat = Some f1 ∧
    pasted_over 2 2 2 0 f0 2 0 ∧ pasted_over 2 2 2 1 f1 2 0 ∧
    image_getpixel atlas 2 0 =
      image_getpixel f1 (2 - (Z.of_nat 1 `mod` 2) * 2) (0 - (Z.of_nat 1 `div` 2) * 2).
Proof.
  do 4 eexists. split; [reflexivity|]. split; [reflexivity|]. split; [reflexivity|].
  split; [by vm_compute|]. split; [by vm_compute|].
  eapply (paste_last_frame_wins (L:=grid_lib) wide_frames 2 2 2 _ _ 1).
  - lia.
  - reflexivity.
  - reflexivity.
  - by vm_compute.
  - by vm_compute.
  - intros j f' Hj Hl. destruct j as [|[|j]]; [lia|lia|discriminate Hl].
Defined.


Lemma atlas_gaps_transparent_sample :
  ∃ (atlas : Grid) rects,
    paste_frames_to_atlas sample_frames 2 2 2 = Ok (atlas, rects) ∧
    image_getpixel atlas 3 3 = Some (0, 0, 0, 0).
Proof.
  do 2 eexists. split; [reflexivity|].
  eapply (atlas_gaps_transparent (L:=grid_lib) sample_frames 2 2 2).
  - lia.
  - apply sample_frames_cell_sized.
  - reflexivity.
  - by vm_compute.
  - intros r Hr.
    change (r ∈ [((0, 0, 2, 2) : Rect); (2, 0, 2, 2); (0, 2, 2, 2)]) in Hr.
    repeat (apply elem_of_cons in Hr as [->|Hr]; [cbn; lia|]).
    by apply elem_of_nil in Hr.
Defined.

Lemma manifest_entries_shape_sample :
  ∃ (atlas : Grid) doc,
    main sample_args sample_sheet = Ok (atlas, doc) ∧
    json.meta_image doc = "atlas.png"%string ∧
    ∀ name e, dict_get (json.frames doc) name = Some e →
      json.w (json.frame e) = 2 ∧
      json.h (json.frame e) = 2 ∧
      (∃ cx cy, 0 ≤ cx < 10 ∧ 0 ≤ cy ∧
                json.x (json.frame e) = cx * 2 ∧ json.y (json.frame e) = cy * 2) ∧
      json.rotated e = false ∧
      json.trimmed e = false ∧
      json.spriteSourceSize e =
        {| json.x := 0; json.y := 0; json.w := 2; json.h := 2 |} ∧
      json.sourceSize e = {| json.size_w := 2; json.size_h := 2 |}.
Proof.
  destruct sample_run_returns as (atlas & doc & Hrun).
  exists atlas, doc. split; [exact Hrun|].
  apply (manifest_entries_shape (L:=grid_lib) sample_args sample_sheet atlas doc).
  - cbn. lia.
  - exact Hrun.
Defined.

Lemma main_atlas_size_sample :
  ∃ (atlas : Grid) doc rows,
    main sample_args sample_sheet = Ok (atlas, doc) ∧
    10 * (rows - 1) < 4 + 4 * Z.max 9 0 ≤ 10 * rows ∧
    image_size atlas = (10 * 2, rows * 2).
Proof.
  destruct sample_run_returns as (atlas & doc & Hrun).
  destruct (main_atlas_size (L:=grid_lib) sample_args sample_sheet atlas doc)
    as (rows & H).
  - cbn. lia.
  - cbn. lia.
  - exact Hrun.
  - exists atlas, doc, rows. split; [exact Hrun|exact H].
Defined.

Lemma static_pose_is_first_walk_frame_sample :
  ∃ names (images : list Grid),
    collect_frames sample_args sample_sheet = Ok (names, images) ∧
    ∀ d, (d < 4)%nat →
      ∃ img, images !! d = Some img ∧
             images !! (4 + d * Z.to_nat 9)%nat = Some img ∧
             names !! d ≠ names !! (4 + d * Z.to_nat 9)%nat.
Proof.
  destruct sample_collect_returns as (names & images & Hrun).
  exists names, images. split; [exact Hrun|].
  apply (static_pose_is_first_walk_frame (L:=grid_lib) sample_args sample_sheet).
  - reflexivity.
  - cbn. lia.
  - exact Hrun.
Defined.

Lemma main_ignores_sheet_columns_sample :
  main sample_args sample_sheet = main sample_args_other_paths sample_sheet.
Proof.
  apply (main_ignores_sheet_columns (L:=grid_lib) sample_args
           sample_args_other_paths sample_sheet); reflexivity.
Defined.
